(** * golden_wind: a single-user PDF find-and-replace bot

    A shallow embedding of [golden_wind.py].  The program receives a PDF
    from one authorised sender, keeps page 0, runs every configured rule
    over that page (search, redact, re-insert text) and sends the saved
    copy back.

    The third-party libraries the program calls (PyMuPDF, pathlib, yaml,
    tempfile, random, python-telegram-bot) are not part of the program:
    - the rendering operations of a PyMuPDF page are an interface
      ([Fitz]), and every result about the engine holds for any
      implementation of it, including one whose calls raise;
    - the file system, the random generator, the parsed configuration
      files and the messaging platform are fields of an explicit [World]
      threaded through a state-and-exception monad.  A downloaded file is
      put into the temporary directory when its name is a plain one; where
      any other name leads is left to the file system ([elsewhere]).

    [App.start] hands control to the platform's receive loop, which calls
    [App.handler] for each message of the authorised sender; the loop
    belongs to the platform and is not modelled. *)

From Stdlib Require Import Ascii String.
From stdpp Require Import gmap strings list fin_maps pretty.

Local Open Scope string_scope.
Local Open Scope list_scope.

(** ** Python strings *)

Module PyStr.

(** [str.endswith(suffix)]. *)
Definition endswith (s suffix : string) : bool :=
  let n := String.length s in
  let k := String.length suffix in
  (k <=? n)%nat && String.eqb (String.substring (n - k) k s) suffix.

(** [str.rfind(c)] for a one-character needle: index of the last
    occurrence, [None] standing for Python's [-1]. *)
Fixpoint rfind_from (c : ascii) (s : string) (i : nat) : option nat :=
  match s with
  | EmptyString => None
  | String a rest =>
      match rfind_from c rest (S i) with
      | Some j => Some j
      | None => if Ascii.eqb a c then Some i else None
      end
  end.

Definition rfind (c : ascii) (s : string) : option nat := rfind_from c s 0.

(** Truthiness of the result of [dict.get]: [None] and the empty string
    are falsy. *)
Definition truthy (o : option string) : bool :=
  match o with
  | Some s => negb (String.eqb s "")
  | None => false
  end.

(** [string.ascii_lowercase] and [string.digits]. *)
Definition ascii_lowercase : string := "abcdefghijklmnopqrstuvwxyz".
Definition digits : string := "0123456789".

End PyStr.

(** ** pathlib *)

(** A path inside a temporary directory: the directory and the final
    component.  [Path(temp_dir) / file_name] is [{| dir := temp_dir; name :=
    file_name |}]; file names are taken to be a single path component. *)
Record Path := mkPath { dir : nat; name : string }.

#[global] Instance Path_eq_dec : EqDecision Path.
Proof. solve_decision. Defined.

(** [PurePath.suffix]: the part of the name from its last dot on, empty
    when the last dot is the first or the last character or is absent. *)
Definition suffix (p : Path) : string :=
  let nm := name p in
  match PyStr.rfind "." nm with
  | Some i =>
      if (0 <? i)%nat && (i <? String.length nm - 1)%nat
      then String.substring i (String.length nm - i) nm
      else ""
  | None => ""
  end.

(** [PurePath.stem]: the name without its suffix. *)
Definition stem (p : Path) : string :=
  let nm := name p in
  match PyStr.rfind "." nm with
  | Some i =>
      if (0 <? i)%nat && (i <? String.length nm - 1)%nat
      then String.substring 0 i nm
      else nm
  | None => nm
  end.

(** A file name that is one plain path component: not empty, not "." or
    "..", without "/" and without a NUL byte, and short enough for a
    directory entry of 255 bytes even with the ten characters that
    [process_document] adds to it.  For such a name
    [Path(temp_dir) / file_name] is the file of that name in [temp_dir]. *)
Definition plain_name (s : string) : bool :=
  negb (String.eqb s "") && negb (String.eqb s ".") && negb (String.eqb s "..")
  && forallb (λ c, negb (Ascii.eqb c "/") && negb (Ascii.eqb c "000"))
       (list_ascii_of_string s)
  && (String.length s <=? 245)%nat.

(** ** Exceptions *)

(** The Python exceptions the program can raise, named by class and, where
    one class is raised at several places, by the place. *)
Inductive exn :=
  | FileNotFoundError (file : string)
      (* [open], [Path.read_text] or [fitz.open] on a missing file *)
  | YAMLError                       (* [yaml.safe_load] on malformed text *)
  | IntValueError                   (* [int(...)] on non-integer text *)
  | FileDataError                   (* [fitz.open] on a file that is no document *)
  | BadPageNumbers                  (* [ValueError("bad page number(s)")] of [Document.select] *)
  | PageIndexError                  (* [Document.__getitem__] out of range *)
  | ZeroPagesSave                   (* [ValueError("cannot save with zero pages")] *)
  | NoneTypeAttributeError (attr : string)
      (* [AttributeError: 'NoneType' object has no attribute attr] *)
  | PathTypeError                   (* [Path / None] *)
  | InvalidToken                    (* [telegram.error.InvalidToken]: an empty token *)
  | TelegramError                   (* a failed platform request *)
  | FitzError (code : nat).         (* any error of a rendering operation *)

#[global] Instance exn_eq_dec : EqDecision exn.
Proof. solve_decision. Defined.

(** Modelled from the spec: the error taxonomy of its section 7, which the
    code does not name; each exception is filed under the condition the
    spec describes for it.  An [AttributeError] belongs to none of them. *)
Inductive Condition :=
  | ConfigurationUnavailable
  | DownloadFailed
  | PageSelectionFailed
  | SubstitutionRenderFailure.

Definition condition (e : exn) : option Condition :=
  match e with
  | FileNotFoundError f =>
      if bool_decide (f = ".actions.yaml" ∨ f = ".token.txt" ∨ f = ".user_id.txt")
      then Some ConfigurationUnavailable else None
  | YAMLError | IntValueError | InvalidToken => Some ConfigurationUnavailable
  | TelegramError => Some DownloadFailed
  | BadPageNumbers | PageIndexError => Some PageSelectionFailed
  | FitzError _ | FileDataError | ZeroPagesSave => Some SubstitutionRenderFailure
  | NoneTypeAttributeError _ | PathTypeError => None
  end.

(** ** PyMuPDF geometry *)

(** Page coordinates.  The program only copies coordinates from a search
    result into an insertion point and never computes with them, so a
    discrete grid stands for PyMuPDF's floats. *)
Record Point := mkPoint { x : Z; y : Z }.

(** [fitz.Rect(x0, y0, x1, y1)]: the y axis points down, so [(x0, y0)] is
    the top-left corner and [(x1, y1)] the bottom-right one. *)
Record Rect := mkRect { x0 : Z; y0 : Z; x1 : Z; y1 : Z }.

#[global] Instance Point_eq_dec : EqDecision Point.
Proof. solve_decision. Defined.

#[global] Instance Rect_eq_dec : EqDecision Rect.
Proof. solve_decision. Defined.

(** [Rect.top_left] ([Rect.tl]) and [Rect.bottom_left] ([Rect.bl]). *)
Definition top_left (r : Rect) : Point := mkPoint (x0 r) (y0 r).
Definition bottom_left (r : Rect) : Point := mkPoint (x0 r) (y1 r).

(** An RGB colour triple. *)
Definition Color : Type := Z * Z * Z.

(** ** The rendering interface of a PyMuPDF page *)

(** The four [fitz.Page] methods the engine calls.  A call returns the
    page as the call leaves it, or the exception it raises. *)
Class Fitz (page : Type) := {
  search_for : page → string → exn + list Rect;
  add_redact_annot : page → Rect → exn + page;
  apply_redactions : page → exn + page;
  insert_text : page → Point → string → Z → string → Color → exn + page;
}.

(** ** What the engine does to a page *)

(** One call of a page method with its arguments; a search also records
    the page it was run on. *)
Inductive Call (page : Type) :=
  | SearchFor (on : page) (text : string)
  | AddRedactAnnot (rect : Rect)
  | ApplyRedactions
  | InsertText (point : Point) (text : string) (fontsize : Z)
      (fontname : string) (color : Color).

Arguments SearchFor {page} on text.
Arguments AddRedactAnnot {page} rect.
Arguments ApplyRedactions {page}.
Arguments InsertText {page} point text fontsize fontname color.

(** What the engine emits: calls into the library and [logger.info]
    lines. *)
Inductive Event (page : Type) :=
  | Lib (c : Call page)
  | Info (line : string).

Arguments Lib {page} c.
Arguments Info {page} line.

(** The library calls of an event list, in order. *)
Fixpoint calls {page} (evs : list (Event page)) : list (Call page) :=
  match evs with
  | [] => []
  | Lib c :: rest => c :: calls rest
  | Info _ :: rest => calls rest
  end.

(** The log lines of an event list, in order. *)
Fixpoint log_lines {page} (evs : list (Event page)) : list string :=
  match evs with
  | [] => []
  | Lib _ :: rest => log_lines rest
  | Info l :: rest => l :: log_lines rest
  end.

(** The text arguments of the [insert_text] calls: everything the engine
    writes into a document. *)
Fixpoint written {page} (cs : list (Call page)) : list string :=
  match cs with
  | [] => []
  | InsertText _ t _ _ _ :: rest => t :: written rest
  | _ :: rest => written rest
  end.

(** ** The engine monad: emitted events and a result or an exception *)

Module Eng.

Definition t (page A : Type) : Type := list (Event page) * (exn + A).

Definition ret {page A} (a : A) : t page A := ([], inr a).

Definition bind {page A B} (m : t page A) (k : A → t page B) : t page B :=
  match m with
  | (evs, inl e) => (evs, inl e)
  | (evs, inr a) => let '(evs', r) := k a in (evs ++ evs', r)
  end.

(** A library call: the call is recorded, then its outcome returned. *)
Definition call {page A} (c : Call page) (r : exn + A) : t page A :=
  ([Lib c], r).

(** [logger.info(line)]. *)
Definition info {page} (line : string) : t page unit :=
  ([Info line], inr tt).

End Eng.

Notation "'let*' x := m 'in' k" := (Eng.bind m (fun x => k))
  (at level 10, x name, m at level 100, k at level 200, only parsing).
Notation "'do*' m 'in' k" := (Eng.bind m (fun _ => k))
  (at level 10, m at level 100, k at level 200, only parsing).

(** A replacement rule as [yaml.safe_load] returns it: a dict from keys
    to strings. *)
Abbreviation Entry := (gmap string string).

Section Engine.

Context {page : Type} `{Fitz page}.

(** The body of the inner loop of [process_document], for occurrence
    number [i] (counted from 0) of [text]. *)
Definition replace_instance (text new_text : string) (i : nat) (rect : Rect)
    (pg : page) : Eng.t page page :=
  (* First, redact (remove) the original text *)
  let* pg := Eng.call (AddRedactAnnot rect) (add_redact_annot pg rect) in
  let* pg := Eng.call ApplyRedactions (apply_redactions pg) in
  (* Insert the new text at the adjusted position *)
  let* pg :=
    Eng.call
      (InsertText (mkPoint (x0 rect) (y1 rect)) text 8 "helv" (0, 0, 0)%Z)
      (insert_text pg (mkPoint (x0 rect) (y1 rect)) text 8 "helv" (0, 0, 0)%Z) in
  do* Eng.info ("Replaced instance " +:+ pretty (i + 1)%nat +:+ " of " +:+ text
                +:+ " with " +:+ new_text +:+ ".") in
  Eng.ret pg.

(** [for i, rect in enumerate(found): ...], from index [i] on. *)
Fixpoint replace_found (text new_text : string) (i : nat) (found : list Rect)
    (pg : page) : Eng.t page page :=
  match found with
  | [] => Eng.ret pg
  | rect :: rest =>
      let* pg := replace_instance text new_text i rect pg in
      replace_found text new_text (S i) rest pg
  end.

(** The body of the outer loop of [process_document] for one entry. *)
Definition apply_entry (entry : Entry) (pg : page) : Eng.t page page :=
  let text := entry !! "replace" in
  let new_text := entry !! "with" in
  if negb (PyStr.truthy text) || negb (PyStr.truthy new_text) then
    Eng.ret pg                                   (* continue *)
  else
    match text, new_text with
    | Some text, Some new_text =>
        let* found := Eng.call (SearchFor pg text) (search_for pg text) in
        do* Eng.info ("Found " +:+ pretty (length found) +:+ " occurrences of "
                      +:+ text) in
        replace_found text new_text 0 found pg
    | _, _ => Eng.ret pg
    end.

(** [for entry in self.actions: ...]. *)
Fixpoint apply_entries (actions : list Entry) (pg : page) : Eng.t page page :=
  match actions with
  | [] => Eng.ret pg
  | entry :: rest =>
      let* pg := apply_entry entry pg in
      apply_entries rest pg
  end.

End Engine.

(** ** The world around the program *)

(** What a file in a temporary directory holds: a PDF given by its pages,
    or bytes that are no document. *)
Inductive FileData (page : Type) :=
  | Pdf (pages : list page)
  | Garbage.

Arguments Pdf {page} pages.
Arguments Garbage {page}.

(** A configuration file as its reader sees it. *)
Inductive Parsed (A : Type) :=
  | Missing
  | Malformed
  | Holds (a : A).

Arguments Missing {A}.
Arguments Malformed {A}.
Arguments Holds {A} a.

(** [telegram.Document], [telegram.Message] and [telegram.Update], with the
    attributes the program reads.  [file_name] and [message] are optional
    on the platform. *)
Record Document := mkDocument { file_id : string; file_name : option string }.
Record Message := mkMessage { chat_id : Z; document : option Document }.
Record Update := mkUpdate { message : option Message }.

Record World (page : Type) := mkWorld {
  token_txt : option string;              (* [.token.txt], if it exists *)
  user_id_txt : Parsed Z;                 (* [.user_id.txt] *)
  actions_yaml : Parsed (list Entry);     (* [.actions.yaml] *)
  tmp_dirs : gset nat;
    (* directories are numbered; these are the live temporary ones *)
  files : gmap (nat * string) (FileData page);
    (* the files, by directory and name *)
  generator : nat → nat;                  (* the draws of [random] *)
  drawn : nat;                            (* how many were consumed *)
  platform : gmap string (FileData page); (* files held by the platform *)
  elsewhere : nat → string → exn + Path;
    (* the file system around the temporary directories: where
       [Path(temp_dir) / file_name] lands when [file_name] is not a plain
       name (absolute, with "/", ...), or the error of writing there *)
  sent : list (Z * string * FileData page);  (* replies: chat, name, content *)
  journal : list (Event page);            (* library calls and log lines *)
}.

Arguments mkWorld {page}.
Arguments token_txt {page}.
Arguments user_id_txt {page}.
Arguments actions_yaml {page}.
Arguments tmp_dirs {page}.
Arguments files {page}.
Arguments generator {page}.
Arguments drawn {page}.
Arguments platform {page}.
Arguments elsewhere {page}.
Arguments sent {page}.
Arguments journal {page}.

(** The key of a path in [files]. *)
Definition key (p : Path) : nat * string := (dir p, name p).

(** ** The program monad: state and exceptions *)

Module M.

Definition t (page A : Type) : Type := World page → (exn + A) * World page.

Definition ret {page A} (a : A) : t page A := fun w => (inr a, w).

Definition raise {page A} (e : exn) : t page A := fun w => (inl e, w).

Definition bind {page A B} (m : t page A) (k : A → t page B) : t page B :=
  fun w =>
    match m w with
    | (inl e, w') => (inl e, w')
    | (inr a, w') => k a w'
    end.

(** The outcome of a pure step. *)
Definition lift {page A} (r : exn + A) : t page A := fun w => (r, w).

End M.

Notation "'let!' x := m 'in' k" := (M.bind m (fun x => k))
  (at level 10, x name, m at level 100, k at level 200, only parsing).
Notation "'do!' m 'in' k" := (M.bind m (fun _ => k))
  (at level 10, m at level 100, k at level 200, only parsing).

Section Program.

Context {page : Type} `{Fitz page}.

(** *** Updates of one field of the world *)

Definition with_actions_yaml (rules : Parsed (list Entry)) (w : World page)
    : World page :=
  mkWorld (token_txt w) (user_id_txt w) rules (tmp_dirs w)
    (files w) (generator w) (drawn w) (platform w) (elsewhere w) (sent w) (journal w).

Definition with_tmp_dirs (f : gset nat → gset nat) (w : World page) : World page :=
  mkWorld (token_txt w) (user_id_txt w) (actions_yaml w) (f (tmp_dirs w))
    (files w) (generator w) (drawn w) (platform w) (elsewhere w) (sent w) (journal w).

Definition with_files
    (f : gmap (nat * string) (FileData page) → gmap (nat * string) (FileData page))
    (w : World page) : World page :=
  mkWorld (token_txt w) (user_id_txt w) (actions_yaml w) (tmp_dirs w)
    (f (files w)) (generator w) (drawn w) (platform w) (elsewhere w) (sent w) (journal w).

Definition with_drawn (f : nat → nat) (w : World page) : World page :=
  mkWorld (token_txt w) (user_id_txt w) (actions_yaml w) (tmp_dirs w)
    (files w) (generator w) (f (drawn w)) (platform w) (elsewhere w) (sent w) (journal w).

Definition with_sent
    (f : list (Z * string * FileData page) → list (Z * string * FileData page))
    (w : World page) : World page :=
  mkWorld (token_txt w) (user_id_txt w) (actions_yaml w) (tmp_dirs w)
    (files w) (generator w) (drawn w) (platform w) (elsewhere w) (f (sent w)) (journal w).

Definition with_journal (f : list (Event page) → list (Event page))
    (w : World page) : World page :=
  mkWorld (token_txt w) (user_id_txt w) (actions_yaml w) (tmp_dirs w)
    (files w) (generator w) (drawn w) (platform w) (elsewhere w) (sent w) (f (journal w)).

(** *** tempfile *)

(** Entering [tempfile.TemporaryDirectory()]: a directory that does not
    exist yet. *)
Definition mkdtemp : M.t page nat := fun w =>
  let d := fresh (tmp_dirs w) in
  (inr d, with_tmp_dirs (λ ds, {[d]} ∪ ds) w).

(** Leaving it: the directory and all its files are removed. *)
Definition cleanup (d : nat) (w : World page) : World page :=
  with_tmp_dirs (λ ds, ds ∖ {[d]})
    (with_files (filter (λ kv, kv.1.1 ≠ d)) w).

(** [with tempfile.TemporaryDirectory() as temp_dir: body]: the directory
    is removed however the body ends. *)
Definition TemporaryDirectory {A} (body : nat → M.t page A) : M.t page A :=
  fun w =>
    match mkdtemp w with
    | (inl e, w1) => (inl e, w1)
    | (inr temp_dir, w1) =>
        let '(r, w2) := body temp_dir w1 in (r, cleanup temp_dir w2)
    end.

(** *** random *)

(** [random.choices(population, k=k)]: [k] draws, each reduced to an
    index into the population. *)
Definition choices (population : list ascii) (k : nat) : M.t page (list ascii) :=
  fun w =>
    (inr (map (λ j, nth (generator w (drawn w + j) mod length population)
                      population "000"%char)
            (seq 0 k)),
     with_drawn (λ n, n + k) w).

Definition random_string (length : nat) : M.t page string :=
  let alphabet := PyStr.ascii_lowercase +:+ PyStr.digits in
  let! picked := choices (list_ascii_of_string alphabet) length in
  M.ret (string_of_list_ascii picked).

(** *** The configuration properties of [App] *)

Definition _token : M.t page string := fun w =>
  match token_txt w with
  | Some s => (inr s, w)
  | None => (inl (FileNotFoundError ".token.txt"), w)
  end.

Definition _user_id : M.t page Z := fun w =>
  match user_id_txt w with
  | Holds z => (inr z, w)
  | Malformed => (inl IntValueError, w)
  | Missing => (inl (FileNotFoundError ".user_id.txt"), w)
  end.

Definition actions : M.t page (list Entry) := fun w =>
  match actions_yaml w with
  | Holds l => (inr l, w)
  | Malformed => (inl YAMLError, w)
  | Missing => (inl (FileNotFoundError ".actions.yaml"), w)
  end.

(** *** The document methods of PyMuPDF *)

(** [fitz.open(path)]: the pages of the file at [path]. *)
Definition fitz_open (path : Path) : M.t page (list page) := fun w =>
  match files w !! key path with
  | Some (Pdf pages) => (inr pages, w)
  | Some Garbage => (inl FileDataError, w)
  | None => (inl (FileNotFoundError (name path)), w)
  end.

(** [min(numbers)] of a non-empty list. *)
Definition list_min (numbers : list nat) : nat :=
  match numbers with
  | [] => 0
  | n :: rest => foldr Nat.min n rest
  end.

(** [Document.select(numbers)]: keep the listed pages, in the listed
    order; the list must be non-empty and within range. *)
Definition select (numbers : list nat) (document : list page)
    : exn + list page :=
  if bool_decide (numbers = [])
     || negb (list_min numbers <? length document)%nat
     || negb (list_max numbers <? length document)%nat
  then inl BadPageNumbers
  else inr (omap (λ i, document !! i) numbers).

(** [document[i]]. *)
Definition getitem (document : list page) (i : nat) : exn + page :=
  match document !! i with
  | Some pg => inr pg
  | None => inl PageIndexError
  end.

(** [Document.save(location)]. *)
Definition save (document : list page) (location : Path) : M.t page unit :=
  fun w =>
    match document with
    | [] => (inl ZeroPagesSave, w)
    | _ => (inr tt, with_files (<[key location := Pdf document]>) w)
    end.

(** Running the engine on the page object: what it emits goes to the
    journal, whether it returns or raises. *)
Definition on_page {A} (m : Eng.t page A) : M.t page A := fun w =>
  (m.2, with_journal (λ j, j ++ m.1) w).

(** *** [App.process_document] *)

(** The block [with fitz.open(path) as document: ...], which ends with
    [document.save(location)]. *)
Definition transform (path location : Path) : M.t page unit :=
  let! document := fitz_open path in
  let! document := M.lift (select [0%nat] document) in
  let! pg := M.lift (getitem document 0) in
  let! entries := actions in
  let! pg := on_page (apply_entries entries pg) in
  (* [pg] is the page object of the document *)
  let document := <[0%nat := pg]> document in
  save document location.

(** The context manager, with the body of the caller's [with] block as
    [body]: it runs where the generator yields. *)
Definition process_document {A} (path : Path) (body : Path → M.t page A)
    : M.t page A :=
  TemporaryDirectory (λ temp_dir,
    let! hash := random_string 8 in
    let location :=
      mkPath temp_dir (stem path +:+ "-" +:+ hash +:+ "." +:+ suffix path) in
    do! transform path location in
    body location).

(** *** The platform *)

(** [bot.get_file(file_id)]. *)
Definition get_file (id : string) : M.t page (FileData page) := fun w =>
  match platform w !! id with
  | Some data => (inr data, w)
  | None => (inl TelegramError, w)
  end.

(** [File.download_to_drive(location)]. *)
Definition download_to_drive (data : FileData page) (location : Path)
    : M.t page unit := fun w =>
  (inr tt, with_files (<[key location := data]>) w).

(** Where [Path(temp_dir) / fname] is when the download is written to
    it: the file [fname] of [temp_dir] for a plain name; for any other
    name the join leaves [temp_dir] or names a directory or a missing
    one, and the file system decides where the file is or how the write
    fails. *)
Definition joinpath (temp_dir : nat) (fname : string) : M.t page Path :=
  fun w =>
    if plain_name fname then (inr (mkPath temp_dir fname), w)
    else (elsewhere w temp_dir fname, w).

(** [bot.send_document(chat_id=chat, document=path)]: the file at [path]
    is read and sent. *)
Definition send_document (chat : Z) (path : Path) : M.t page unit := fun w =>
  match files w !! key path with
  | Some data => (inr tt, with_sent (λ l, l ++ [(chat, name path, data)]) w)
  | None => (inl (FileNotFoundError (name path)), w)
  end.

(** *** [App.download_document] *)

Definition download_document {A} (msg : Message) (body : Path → M.t page A)
    : M.t page A :=
  match document msg with
  | None => M.raise (NoneTypeAttributeError "file_id")
  | Some doc =>
      let! data := get_file (file_id doc) in
      TemporaryDirectory (λ temp_dir,
        match file_name doc with
        | None => M.raise PathTypeError
        | Some fname =>
            let! location := joinpath temp_dir fname in
            do! download_to_drive data location in
            body location
        end)
  end.

(** *** [App.handler] *)

Definition handler (update : Update) : M.t page unit :=
  match message update with
  | None => M.raise (NoneTypeAttributeError "chat_id")
  | Some msg =>
      let chat := chat_id msg in
      let doc := document msg in
      (* Process only PDF documents *)
      let! skip :=
        match doc with
        | None => M.ret true
        | Some d =>
            match file_name d with
            | None => M.raise (NoneTypeAttributeError "endswith")
            | Some fname => M.ret (negb (PyStr.endswith fname ".pdf"))
            end
        end in
      if skip then M.ret tt
      else
        (* Download document, process it and send it back *)
        download_document msg (λ original,
          process_document original (λ copy,
            send_document chat copy))
  end.

(** *** [App.__init__] *)

(** The application object: the token it was built with and the user
    its one handler is filtered by ([filters.User(self._user_id)]). *)
Record App := mkApp { bot_token : string; filter_user : Z }.

(** [ApplicationBuilder().token(self._token).build()], then
    [add_handler(MessageHandler(filters=self.filter, ...))]. *)
Definition App_init : M.t page App :=
  let! token := _token in
  (* [Bot.__init__]: [if not token: raise InvalidToken(...)] *)
  do! (if String.eqb token "" then M.raise InvalidToken else M.ret tt) in
  let! user := _user_id in
  M.ret (mkApp token user).

End Program.

(** ** A small implementation of the interface

    Pages as lists of positioned text runs.  It is used to run the program
    on concrete inputs; no result about the engine depends on it. *)

Module Sheet.

Record t := mk { runs : list (string * Rect); marked : list Rect }.

Definition overlaps (a b : Rect) : bool :=
  (x0 a <? x1 b)%Z && (x0 b <? x1 a)%Z && (y0 a <? y1 b)%Z && (y0 b <? y1 a)%Z.

(** The box of a run of [n] characters of size [size] whose baseline
    starts at [pt]. *)
Definition box (pt : Point) (n : nat) (size : Z) : Rect :=
  mkRect (x pt) (y pt - size) (x pt + size * Z.of_nat n) (y pt).

#[global] Instance fitz : Fitz t := {
  search_for pg text :=
    inr (map snd (List.filter (λ r, String.eqb r.1 text) (runs pg)));
  add_redact_annot pg rect := inr (mk (runs pg) (marked pg ++ [rect]));
  apply_redactions pg :=
    inr (mk (List.filter (λ r, negb (existsb (overlaps r.2) (marked pg)))
               (runs pg)) []);
  insert_text pg pt text size _ _ :=
    inr (mk (runs pg ++ [(text, box pt (String.length text) size)]) (marked pg));
}.

(** A page showing "Invoice" and "#42" on one line. *)
Definition invoice_page : t :=
  mk [("Invoice", mkRect 10 20 66 30); ("#42", mkRect 70 20 94 30)] [].

Definition cover_page : t := mk [("Cover", mkRect 0 0 40 10)] [].

(** A library whose every call raises. *)
Definition broken : Fitz t := {|
  search_for _ _ := inl (FitzError 1);
  add_redact_annot _ _ := inl (FitzError 2);
  apply_redactions _ := inl (FitzError 3);
  insert_text _ _ _ _ _ _ := inl (FitzError 4);
|}.

Definition rule (find replacement : string) : Entry :=
  <["replace" := find]> (<["with" := replacement]> ∅).

(** The rule of the running example and what it does to
    [invoice_page]. *)
Definition invoice_rule : Entry := rule "Invoice" "Receipt".

Definition invoice_done : t :=
  mk [("#42", mkRect 70 20 94 30); ("Invoice", mkRect 10 22 66 30)] [].

Definition invoice_events : list (Event t) :=
  Eval vm_compute in (apply_entries [invoice_rule] invoice_page).1.

(** A world in which the file "invoice.pdf" with content [data] has been
    downloaded into temporary directory 0 and is held by the platform
    under the identifier "file-1". *)
Definition world (rules : Parsed (list Entry)) (data : FileData t) : World t :=
  mkWorld (Some "123:abc") (Holds 7%Z) rules {[0%nat]}
    {[ (0%nat, "invoice.pdf") := data ]} (λ n, 7 * n + 3)%nat 0
    {[ "file-1" := data ]} (λ _ fname, inl (FileNotFoundError fname)) [] [].

(** The downloaded two-page invoice and its location. *)
Definition original : Path := mkPath 0 "invoice.pdf".

Definition two_pages : World t :=
  world (Holds [invoice_rule]) (Pdf [invoice_page; cover_page]).

(** The same world around a file system in which the directory
    "/tmp/gwtmp" exists, as directory 9. *)
Definition mounted (w : World t) : World t :=
  mkWorld (token_txt w) (user_id_txt w) (actions_yaml w) (tmp_dirs w) (files w)
    (generator w) (drawn w) (platform w)
    (λ _ fname,
       if String.eqb fname "/tmp/gwtmp/evil.pdf" then inr (mkPath 9 "evil.pdf")
       else inl (FileNotFoundError fname))
    (sent w) (journal w).

(** A message with the document "file-1", under the given file name. *)
Definition inbound (fname : option string) : Update :=
  mkUpdate (Some (mkMessage 5 (Some (mkDocument "file-1" fname)))).

End Sheet.

(** ** Vocabulary of the statements *)

(** What a run of the engine does to the document: its library calls and
    its outcome, the log left out. *)
Definition on_document {page A} (m : Eng.t page A) : list (Call page) * (exn + A) :=
  (calls m.1, m.2).

(** *** What the rules are to do to the page, as library operations

    The claims speak of redacting a region and inserting text.  These
    definitions say it with the operations of the library alone, without
    events and log, to be compared with what the engine returns. *)

(** The region [rect] is marked, the redaction applied and [text]
    inserted at [(x0, y1)] in size 8, face "helv", colour (0, 0, 0). *)
Definition page_after_instance {page} `{Fitz page} (text : string) (rect : Rect)
    (pg : page) : exn + page :=
  match add_redact_annot pg rect with
  | inl e => inl e
  | inr marked =>
      match apply_redactions marked with
      | inl e => inl e
      | inr vacated =>
          insert_text vacated (mkPoint (x0 rect) (y1 rect)) text 8 "helv"
            (0, 0, 0)%Z
      end
  end.

(** The same for each region of [found], in order, each on the page the
    one before left. *)
Fixpoint page_after_found {page} `{Fitz page} (text : string)
    (found : list Rect) (pg : page) : exn + page :=
  match found with
  | [] => inr pg
  | rect :: rest =>
      match page_after_instance text rect pg with
      | inl e => inl e
      | inr pg1 => page_after_found text rest pg1
      end
  end.

(** One rule: nothing when the find text or the replacement is missing
    or empty; otherwise every occurrence of the find text on the page is
    redacted and written anew. *)
Definition page_after_entry {page} `{Fitz page} (entry : Entry) (pg : page)
    : exn + page :=
  match entry !! "replace", entry !! "with" with
  | Some text, Some new_text =>
      if String.eqb text "" || String.eqb new_text "" then inr pg
      else
        match search_for pg text with
        | inl e => inl e
        | inr found => page_after_found text found pg
        end
  | _, _ => inr pg
  end.

(** The rules of a list, in order, each on the page the one before
    left. *)
Fixpoint page_after_entries {page} `{Fitz page} (entries : list Entry)
    (pg : page) : exn + page :=
  match entries with
  | [] => inr pg
  | entry :: rest =>
      match page_after_entry entry pg with
      | inl e => inl e
      | inr pg1 => page_after_entries rest pg1
      end
  end.

(** An entry whose find field or replacement field is missing or empty. *)
Definition inert (entry : Entry) : Prop :=
  entry !! "replace" = None ∨ entry !! "replace" = Some ""
  ∨ entry !! "with" = None ∨ entry !! "with" = Some "".

(** Every insertion in a list of calls comes right after the redaction of
    a region was marked and applied, starts at that region's bottom-left
    corner and is set in size 8, face "helv", colour (0, 0, 0). *)
Definition placed_at_bottom_left {page} (cs : list (Call page)) : Prop :=
  ∀ (i : nat) pt text size face col,
    cs !! i = Some (InsertText pt text size face col) →
    ∃ rect,
      (2 ≤ i)%nat ∧ cs !! (i - 2) = Some (AddRedactAnnot rect)
      ∧ cs !! (i - 1) = Some ApplyRedactions
      ∧ pt = bottom_left rect ∧ size = 8%Z ∧ face = "helv"
      ∧ col = (0, 0, 0)%Z.

(** The characters of [string.ascii_lowercase + string.digits]. *)
Definition alphabet : list ascii :=
  list_ascii_of_string (PyStr.ascii_lowercase +:+ PyStr.digits).

(** The same, with the top-left corner. *)
Definition placed_at_top_left {page} (cs : list (Call page)) : Prop :=
  ∀ (i : nat) pt text size face col,
    cs !! i = Some (InsertText pt text size face col) →
    ∃ rect,
      (2 ≤ i)%nat ∧ cs !! (i - 2) = Some (AddRedactAnnot rect)
      ∧ cs !! (i - 1) = Some ApplyRedactions
      ∧ pt = top_left rect ∧ size = 8%Z ∧ face = "helv"
      ∧ col = (0, 0, 0)%Z.

(** A computation that leaves the set of temporary directories as it
    found it and adds files in the directories [D] only. *)
Definition confined {page A} (D : gset nat) (m : M.t page A) : Prop :=
  ∀ w, tmp_dirs (m w).2 = tmp_dirs w
       ∧ ∀ k v, files (m w).2 !! k = Some v → files w !! k = Some v ∨ k.1 ∈ D.

(** An update whose document, if it has one with a name, has a plain
    name. *)
Definition plainly_named (update : Update) : Prop :=
  ∀ msg doc fname,
    message update = Some msg → document msg = Some doc →
    file_name doc = Some fname → plain_name fname = true.

(** A computation that sends nothing. *)
Definition quiet {page A} (m : M.t page A) : Prop :=
  ∀ w, sent (m w).2 = sent w.

(** A computation that sends one reply to [chat] when it returns and
    none when it raises. *)
Definition replies {page} (chat : Z) (m : M.t page unit) : Prop :=
  ∀ w, match (m w).1 with
       | inl _ => sent (m w).2 = sent w
       | inr _ => ∃ fname data, sent (m w).2 = sent w ++ [(chat, fname, data)]
       end.

(** * Results *)

(** ** Strings and paths *)

Example endswith_pdf : PyStr.endswith "invoice.pdf" ".pdf" = true.
Proof. reflexivity. Qed.

Example endswith_case_sensitive : PyStr.endswith "invoice.PDF" ".pdf" = false.
Proof. reflexivity. Qed.

Example endswith_short : PyStr.endswith "pdf" ".pdf" = false.
Proof. reflexivity. Qed.

Example stem_suffix_plain :
  stem (mkPath 0 "invoice.pdf") = "invoice" ∧ suffix (mkPath 0 "invoice.pdf") = ".pdf".
Proof. split; reflexivity. Qed.

Example stem_suffix_two_dots :
  stem (mkPath 0 "a.b.pdf") = "a.b" ∧ suffix (mkPath 0 "a.b.pdf") = ".pdf".
Proof. split; reflexivity. Qed.

Example stem_suffix_dotfile :
  stem (mkPath 0 ".pdf") = ".pdf" ∧ suffix (mkPath 0 ".pdf") = "".
Proof. split; reflexivity. Qed.

(** ** The engine monad *)

Section EngMonad.

Context {page : Type}.

Lemma calls_app (l1 l2 : list (Event page)) :
  calls (l1 ++ l2) = calls l1 ++ calls l2.
Proof.
  induction l1 as [|[c|line] l1 IH]; simpl; [done | by rewrite IH | done].
Qed.

Lemma written_app (l1 l2 : list (Call page)) :
  written (l1 ++ l2) = written l1 ++ written l2.
Proof.
  induction l1 as [|c l1 IH]; simpl; [done|].
  destruct c; simpl; by rewrite ?IH.
Qed.

Lemma bind_ret_l {A B} (a : A) (k : A → Eng.t page B) :
  Eng.bind (Eng.ret a) k = k a.
Proof. unfold Eng.bind, Eng.ret. by destruct (k a). Qed.

Lemma bind_assoc {A B C} (m : Eng.t page A) (f : A → Eng.t page B)
    (g : B → Eng.t page C) :
  Eng.bind (Eng.bind m f) g = Eng.bind m (λ a, Eng.bind (f a) g).
Proof.
  destruct m as [evs [e|a]]; simpl; [done|].
  destruct (f a) as [evs1 [e|b]]; simpl; [done|].
  destruct (g b) as [evs2 r]. by rewrite app_assoc.
Qed.

Lemma bind_ext {A B} (m : Eng.t page A) (k k' : A → Eng.t page B) :
  (∀ a, k a = k' a) → Eng.bind m k = Eng.bind m k'.
Proof.
  intros Hk. destruct m as [evs [e|a]]; simpl; [done|]. by rewrite Hk.
Qed.

(** The events of a sequence: those of the first part, then those of
    the second if the first returned. *)
Lemma bind_events {A B} (m : Eng.t page A) (k : A → Eng.t page B) :
  (Eng.bind m k).1
  = m.1 ++ match m.2 with inr a => (k a).1 | inl _ => [] end.
Proof.
  destruct m as [evs [e|a]]; simpl; [by rewrite app_nil_r|].
  by destruct (k a).
Qed.

Lemma bind_result {A B} (m : Eng.t page A) (k : A → Eng.t page B) :
  (Eng.bind m k).2 = match m.2 with inr a => (k a).2 | inl e => inl e end.
Proof.
  destruct m as [evs [e|a]]; simpl; [done|]. by destruct (k a).
Qed.

Lemma bind_inr {A B} (m : Eng.t page A) (k : A → Eng.t page B) evs b :
  Eng.bind m k = (evs, inr b) →
  ∃ evs1 a evs2, m = (evs1, inr a) ∧ k a = (evs2, inr b) ∧ evs = evs1 ++ evs2.
Proof.
  destruct m as [evs1 [e|a]]; simpl; [done|].
  destruct (k a) as [evs2 r] eqn:Hk. intros [= <- ->]. eauto 6.
Qed.

End EngMonad.

(** ** The engine *)

Section EngineFacts.

Context {page : Type} `{Fitz page}.

Lemma on_document_bind {A B} (m m' : Eng.t page A) (k k' : A → Eng.t page B) :
  on_document m = on_document m' →
  (∀ a, on_document (k a) = on_document (k' a)) →
  on_document (Eng.bind m k) = on_document (Eng.bind m' k').
Proof.
  unfold on_document. intros Hm Hk.
  rewrite !bind_events, !bind_result, !calls_app.
  injection Hm as Hc Hr. rewrite Hc, Hr.
  destruct (m'.2) as [e|a]; [done|].
  specialize (Hk a). injection Hk as -> ->. done.
Qed.

Lemma on_document_info {B} line line' (k : unit → Eng.t page B) :
  on_document (Eng.bind (Eng.info line) k)
  = on_document (Eng.bind (Eng.info line') k).
Proof. apply on_document_bind; done. Qed.

(** *** Entries the loop skips and entries it runs *)

Lemma apply_entry_inert (entry : Entry) (pg : page) :
  inert entry → apply_entry entry pg = Eng.ret pg.
Proof.
  unfold apply_entry.
  intros [Hi|[Hi|[Hi|Hi]]]; rewrite Hi; simpl; rewrite ?orb_true_r; done.
Qed.

Lemma apply_entry_live (entry : Entry) text new_text (pg : page) :
  entry !! "replace" = Some text → entry !! "with" = Some new_text →
  text ≠ "" → new_text ≠ "" →
  apply_entry entry pg
  = (let* found := Eng.call (SearchFor pg text) (search_for pg text) in
     do* Eng.info ("Found " +:+ pretty (length found) +:+ " occurrences of "
                   +:+ text) in
     replace_found text new_text 0 found pg).
Proof.
  intros Ht Hn Ht0 Hn0. unfold apply_entry. rewrite Ht, Hn. simpl.
  apply String.eqb_neq in Ht0, Hn0. rewrite Ht0, Hn0. done.
Qed.

Lemma apply_entries_app (before after : list Entry) (pg : page) :
  apply_entries (before ++ after) pg
  = (let* pg1 := apply_entries before pg in apply_entries after pg1).
Proof.
  revert pg. induction before as [|entry before IH]; intros pg;
    cbn [app apply_entries].
  - by rewrite bind_ret_l.
  - rewrite bind_assoc. apply bind_ext. intros pg1. apply IH.
Qed.

(** *** One occurrence *)

(** The ways the body of the inner loop can end, with the calls made in
    each. *)
Lemma replace_instance_cases text new_text i rect (pg : page) :
  let point := mkPoint (x0 rect) (y1 rect) in
  let insert := InsertText point text 8 "helv" (0, 0, 0)%Z in
  (∃ e, on_document (replace_instance text new_text i rect pg)
        = ([AddRedactAnnot rect], inl e))
  ∨ (∃ e, on_document (replace_instance text new_text i rect pg)
          = ([AddRedactAnnot rect; ApplyRedactions], inl e))
  ∨ (∃ r, on_document (replace_instance text new_text i rect pg)
          = ([AddRedactAnnot rect; ApplyRedactions; insert], r)).
Proof.
  unfold replace_instance, on_document, Eng.bind, Eng.call, Eng.info, Eng.ret.
  destruct (add_redact_annot pg rect) as [e|p1]; simpl; [eauto|].
  destruct (apply_redactions p1) as [e|p2]; simpl; [eauto|].
  destruct (insert_text p2 _ text _ _ _) as [e|p3]; simpl; eauto.
Qed.

Lemma replace_instance_log_free text new_text new_text' i rect (pg : page) :
  on_document (replace_instance text new_text i rect pg)
  = on_document (replace_instance text new_text' i rect pg).
Proof.
  unfold replace_instance.
  repeat (apply on_document_bind; [done|]; intros ?). done.
Qed.

Lemma replace_instance_inr text new_text i rect (pg pg' : page) evs :
  replace_instance text new_text i rect pg = (evs, inr pg') →
  calls evs = [AddRedactAnnot rect; ApplyRedactions;
               InsertText (mkPoint (x0 rect) (y1 rect)) text 8 "helv" (0, 0, 0)%Z]
  ∧ ∃ p1 p2,
      add_redact_annot pg rect = inr p1 ∧ apply_redactions p1 = inr p2
      ∧ insert_text p2 (mkPoint (x0 rect) (y1 rect)) text 8 "helv" (0, 0, 0)%Z
        = inr pg'.
Proof.
  unfold replace_instance, Eng.bind, Eng.call, Eng.info, Eng.ret.
  destruct (add_redact_annot pg rect) as [e|p1] eqn:Hmark; simpl; [done|].
  destruct (apply_redactions p1) as [e|p2] eqn:Happly; simpl; [done|].
  destruct (insert_text p2 _ text _ _ _) as [e|p3] eqn:Hins; simpl; [done|].
  intros [= <- <-]. split; [done|]. eauto.
Qed.

(** *** All occurrences of one entry *)

Lemma replace_found_log_free text new_text new_text' i found (pg : page) :
  on_document (replace_found text new_text i found pg)
  = on_document (replace_found text new_text' i found pg).
Proof.
  revert i pg. induction found as [|rect found IH]; intros i pg; [done|].
  cbn [replace_found]. apply on_document_bind; [|intros pg1; apply IH].
  apply replace_instance_log_free.
Qed.

(** When the loop over the occurrences returns, it has made the three
    calls for each occurrence, in the order of the occurrences. *)
Lemma replace_found_inr text new_text i found (pg pg' : page) evs :
  replace_found text new_text i found pg = (evs, inr pg') →
  calls evs
  = flat_map (λ rect, [AddRedactAnnot rect; ApplyRedactions;
                       InsertText (mkPoint (x0 rect) (y1 rect)) text 8 "helv"
                         (0, 0, 0)%Z]) found.
Proof.
  revert i pg evs. induction found as [|rect found IH]; intros i pg evs.
  - by intros [= <- <-].
  - cbn [replace_found flat_map]. intros Hrun.
    apply bind_inr in Hrun as (evs1 & pg1 & evs2 & Hone & Hrest & ->).
    rewrite calls_app. apply replace_instance_inr in Hone as [-> _].
    by rewrite (IH _ _ _ Hrest).
Qed.

(** Whatever happens, only the find text is written. *)
Lemma replace_found_written text new_text i found (pg : page) :
  Forall (λ s, s = text)
    (written (calls (replace_found text new_text i found pg).1)).
Proof.
  revert i pg. induction found as [|rect found IH]; intros i pg.
  - constructor.
  - cbn [replace_found]. rewrite bind_events, calls_app, written_app.
    apply Forall_app. split.
    + destruct (replace_instance_cases text new_text i rect pg)
        as [[e He]|[[e He]|[r He]]];
        injection He as -> _; simpl; repeat constructor.
    + destruct ((replace_instance text new_text i rect pg).2); [constructor|].
      apply IH.
Qed.

Lemma placed_nil : placed_at_bottom_left (@nil (Call page)).
Proof. intros i ? ? ? ? ? Hi. by rewrite lookup_nil in Hi. Qed.

Lemma placed_app (l1 l2 : list (Call page)) :
  placed_at_bottom_left l1 → placed_at_bottom_left l2 →
  placed_at_bottom_left (l1 ++ l2).
Proof.
  intros P1 P2 i pt text size face col Hi.
  destruct (decide (i < length l1)) as [Hlt|Hge].
  - rewrite lookup_app_l in Hi by done.
    destruct (P1 _ _ _ _ _ _ Hi) as (rect & Hi2 & Hmark & Happly & Hrest).
    exists rect. rewrite !lookup_app_l by lia. done.
  - rewrite lookup_app_r in Hi by lia.
    destruct (P2 _ _ _ _ _ _ Hi) as (rect & Hi2 & Hmark & Happly & Hrest).
    exists rect. rewrite !lookup_app_r by lia.
    replace (i - 2 - length l1) with (i - length l1 - 2) by lia.
    replace (i - 1 - length l1) with (i - length l1 - 1) by lia.
    split; [lia|done].
Qed.

Lemma placed_search (on : page) text (cs : list (Call page)) :
  placed_at_bottom_left cs → placed_at_bottom_left (SearchFor on text :: cs).
Proof.
  intros Pcs. apply (placed_app [_]); [|done].
  intros [|i] ? ? ? ? ? Hi; done.
Qed.

Lemma placed_instance text new_text i rect (pg : page) :
  placed_at_bottom_left (calls (replace_instance text new_text i rect pg).1).
Proof.
  destruct (replace_instance_cases text new_text i rect pg)
    as [[e He]|[[e He]|[r He]]];
    injection He as -> _; intros [|[|[|j]]] ? ? ? ? ? Hj; try done.
  injection Hj as <- <- <- <- <-. exists rect. done.
Qed.

Lemma placed_found text new_text i found (pg : page) :
  placed_at_bottom_left (calls (replace_found text new_text i found pg).1).
Proof.
  revert i pg. induction found as [|rect found IH]; intros i pg.
  - apply placed_nil.
  - cbn [replace_found]. rewrite bind_events, calls_app.
    apply placed_app; [apply placed_instance|].
    destruct ((replace_instance text new_text i rect pg).2);
      [apply placed_nil | apply IH].
Qed.

Lemma placed_entry (entry : Entry) (pg : page) :
  placed_at_bottom_left (calls (apply_entry entry pg).1).
Proof.
  unfold apply_entry.
  destruct (negb (PyStr.truthy (entry !! "replace"))
            || negb (PyStr.truthy (entry !! "with"))); [apply placed_nil|].
  destruct (entry !! "replace") as [text|]; [|apply placed_nil].
  destruct (entry !! "with") as [new_text|]; [|apply placed_nil].
  rewrite bind_events, calls_app. apply placed_search.
  destruct ((Eng.call (SearchFor pg text) (search_for pg text)).2)
    as [e|found]; [apply placed_nil|].
  rewrite bind_events, calls_app. apply (placed_app []); [apply placed_nil|].
  apply placed_found.
Qed.

(** *** The page the engine returns *)

Lemma replace_instance_result text new_text i rect (pg : page) :
  (replace_instance text new_text i rect pg).2
  = page_after_instance text rect pg.
Proof.
  unfold replace_instance, page_after_instance, Eng.bind, Eng.call, Eng.info,
    Eng.ret.
  destruct (add_redact_annot pg rect) as [e|p1]; simpl; [done|].
  destruct (apply_redactions p1) as [e|p2]; simpl; [done|].
  by destruct (insert_text p2 _ text _ _ _).
Qed.

Lemma replace_found_result text new_text i found (pg : page) :
  (replace_found text new_text i found pg).2 = page_after_found text found pg.
Proof.
  revert i pg. induction found as [|rect found IH]; intros i pg; [done|].
  cbn [replace_found page_after_found].
  rewrite bind_result, replace_instance_result.
  destruct (page_after_instance text rect pg); [done | apply IH].
Qed.

Lemma apply_entry_result (entry : Entry) (pg : page) :
  (apply_entry entry pg).2 = page_after_entry entry pg.
Proof.
  unfold apply_entry, page_after_entry, PyStr.truthy.
  destruct (entry !! "replace") as [text|]; [|done].
  destruct (entry !! "with") as [new_text|];
    [|by destruct (negb (String.eqb text ""))].
  rewrite !negb_involutive.
  destruct (String.eqb text "" || String.eqb new_text ""); [done|].
  rewrite bind_result. cbn [Eng.call snd].
  destruct (search_for pg text) as [e|found]; [done|].
  rewrite bind_result. cbn [Eng.info snd]. apply replace_found_result.
Qed.

Lemma apply_entries_result (entries : list Entry) (pg : page) :
  (apply_entries entries pg).2 = page_after_entries entries pg.
Proof.
  revert pg. induction entries as [|entry entries IH]; intros pg; [done|].
  cbn [apply_entries page_after_entries].
  rewrite bind_result, apply_entry_result.
  destruct (page_after_entry entry pg); [done | apply IH].
Qed.

(** *** The claims about the engine *)

(** C1: for a rule whose find text and replacement are both non-empty,
    the outcome of the run is the outcome of the library operations: the
    search, then for each occurrence found on the page, in order, its
    region marked for redaction, the redaction applied and the find text
    inserted at that region, each on the page the step before left; so the
    run returns exactly when these operations succeed, with the page they
    produce.  The engine writes nothing but the find text, however the run
    ends; the replacement has no influence on what is done to the
    document; and when the run returns, the calls made are the search
    followed by the three calls for each occurrence. *)
Theorem find_text_is_reinserted (entry : Entry) text new_text (pg : page) :
  entry !! "replace" = Some text → entry !! "with" = Some new_text →
  text ≠ "" → new_text ≠ "" →
  (apply_entry entry pg).2
  = match search_for pg text with
    | inl e => inl e
    | inr found => page_after_found text found pg
    end
  ∧ Forall (λ s, s = text) (written (calls (apply_entry entry pg).1))
  ∧ (∀ other, other ≠ "" →
       on_document (apply_entry (<["with" := other]> entry) pg)
       = on_document (apply_entry entry pg))
  ∧ (∀ evs pg', apply_entry entry pg = (evs, inr pg') →
       ∃ found,
         search_for pg text = inr found
         ∧ page_after_found text found pg = inr pg'
         ∧ calls evs
           = SearchFor pg text
             :: flat_map (λ rect, [AddRedactAnnot rect; ApplyRedactions;
                                   InsertText (mkPoint (x0 rect) (y1 rect)) text
                                     8 "helv" (0, 0, 0)%Z]) found).
Proof.
  intros Ht Hn Ht0 Hn0.
  assert ((apply_entry entry pg).2
          = match search_for pg text with
            | inl e => inl e
            | inr found => page_after_found text found pg
            end) as Hresult.
  { rewrite apply_entry_result. unfold page_after_entry. rewrite Ht, Hn.
    apply String.eqb_neq in Ht0, Hn0. by rewrite Ht0, Hn0. }
  split; [done|]. split; [|split].
  - rewrite (apply_entry_live _ _ _ _ Ht Hn Ht0 Hn0).
    rewrite bind_events, calls_app, written_app. apply Forall_app.
    split; [constructor|].
    destruct ((Eng.call (SearchFor pg text) (search_for pg text)).2)
      as [e|found]; [constructor|].
    rewrite bind_events, calls_app, written_app. apply Forall_app.
    split; [constructor|]. apply replace_found_written.
  - intros other Hother.
    rewrite (apply_entry_live _ _ _ _ Ht Hn Ht0 Hn0).
    rewrite (apply_entry_live (<["with" := other]> entry) text other);
      [|by rewrite lookup_insert_ne|by rewrite lookup_insert_eq|done|done].
    apply on_document_bind; [done|]. intros found.
    apply on_document_bind; [done|]. intros _.
    apply replace_found_log_free.
  - intros evs pg' Hrun. rewrite Hrun in Hresult. cbn [snd] in Hresult.
    rewrite (apply_entry_live _ _ _ _ Ht Hn Ht0 Hn0) in Hrun.
    apply bind_inr in Hrun as (evs1 & found & evs2 & Hsearch & Hrun & ->).
    injection Hsearch as <- Hsearch.
    apply bind_inr in Hrun as (evs3 & [] & evs4 & Hinfo & Hrun & ->).
    injection Hinfo as <-.
    exists found. split; [done|]. rewrite Hsearch in Hresult.
    split; [done|].
    rewrite !calls_app. simpl. f_equal. by apply replace_found_inr in Hrun.
Qed.

(** C3, as the code has it: every insertion the engine makes, for any
    list of rules and however the run ends, comes right after the
    redaction of a region was marked and applied, starts at the
    bottom-left corner [(x0, y1)] of that region, and is set in size 8,
    face "helv", colour (0, 0, 0). *)
Theorem insertion_at_bottom_left (entries : list Entry) (pg : page) :
  placed_at_bottom_left (calls (apply_entries entries pg).1).
Proof.
  revert pg. induction entries as [|entry entries IH]; intros pg.
  - apply placed_nil.
  - cbn [apply_entries]. rewrite bind_events, calls_app.
    apply placed_app; [apply placed_entry|].
    destruct ((apply_entry entry pg).2); [apply placed_nil | apply IH].
Qed.

(** C7: an entry whose find or replacement field is missing or empty is
    skipped: it makes no call, writes no log line, leaves the page as it
    is and raises nothing, with any library; a list of rules runs as the
    list without that entry does. *)
Theorem inert_entry_is_skipped (entry : Entry) (before after : list Entry)
    (pg : page) :
  inert entry →
  apply_entry entry pg = ([], inr pg)
  ∧ apply_entries (before ++ entry :: after) pg
    = apply_entries (before ++ after) pg.
Proof.
  intros Hinert. split; [by apply apply_entry_inert|].
  rewrite !apply_entries_app. apply bind_ext. intros pg1.
  cbn [apply_entries]. rewrite (apply_entry_inert _ _ Hinert).
  apply bind_ret_l.
Qed.

(** C9: the rules run in the listed order, and the search of a rule is
    made on the page that the redactions and insertions of all the rules
    before it have produced: what the earlier rules return is the outcome
    of their library operations, and when those operations succeed with
    the page [pg1], the earlier rules return [pg1] and the next event is
    the search for the rule's find text on [pg1]. *)
Theorem entries_run_in_order (before after : list Entry) (entry : Entry)
    text new_text (pg : page) :
  entry !! "replace" = Some text → entry !! "with" = Some new_text →
  text ≠ "" → new_text ≠ "" →
  apply_entries (before ++ entry :: after) pg
  = (let* pg1 := apply_entries before pg in
     let* pg2 := apply_entry entry pg1 in
     apply_entries after pg2)
  ∧ (apply_entries before pg).2 = page_after_entries before pg
  ∧ ∀ pg1, page_after_entries before pg = inr pg1 →
      ∃ evs evs',
        apply_entries before pg = (evs, inr pg1)
        ∧ (apply_entries (before ++ entry :: after) pg).1
          = evs ++ Lib (SearchFor pg1 text) :: evs'.
Proof.
  intros Ht Hn Ht0 Hn0.
  assert (apply_entries (before ++ entry :: after) pg
          = (let* pg1 := apply_entries before pg in
             let* pg2 := apply_entry entry pg1 in
             apply_entries after pg2)) as Hseq.
  { by rewrite apply_entries_app. }
  split; [done|]. split; [apply apply_entries_result|].
  intros pg1 Hpage. rewrite <- apply_entries_result in Hpage.
  destruct (apply_entries before pg) as [evs r] eqn:Hbefore.
  cbn [snd] in Hpage. subst r. exists evs. eexists. split; [done|].
  rewrite Hseq, bind_events. cbn [fst snd]. f_equal.
  rewrite bind_events, (apply_entry_live _ _ _ _ Ht Hn Ht0 Hn0), bind_events.
  cbn [Eng.call fst snd]. rewrite <- !app_assoc. reflexivity.
Qed.

End EngineFacts.

(** ** The program *)

Section ProgramFacts.

Context {page : Type} `{Fitz page}.

Lemma length_string_of_list_ascii (l : list ascii) :
  String.length (string_of_list_ascii l) = length l.
Proof. induction l as [|a l IH]; simpl; [done | by rewrite IH]. Qed.

(** [random_string n] returns [n] characters of the alphabet and consumes
    [n] draws. *)
Lemma random_string_spec (n : nat) (w : World page) :
  ∃ s, random_string n w = (inr s, with_drawn (λ k, k + n) w)
       ∧ String.length s = n
       ∧ Forall (λ c, c ∈ alphabet) (list_ascii_of_string s).
Proof.
  unfold random_string, M.bind, choices, M.ret. eexists. split; [reflexivity|].
  split.
  - by rewrite length_string_of_list_ascii, length_map, length_seq.
  - rewrite list_ascii_of_string_of_list_ascii. apply Forall_map, Forall_forall.
    intros j _. apply list_elem_of_In, nth_In.
    apply Nat.mod_upper_bound. done.
Qed.

Lemma get_string_of_list_ascii (l : list ascii) (j : nat) :
  String.get j (string_of_list_ascii l) = l !! j.
Proof.
  revert j. induction l as [|a l IH]; intros [|j]; simpl; [done..|apply IH].
Qed.

(** The characters of [random_string n] are those the next [n] draws of
    the generator index in the alphabet. *)
Lemma random_string_draws (n : nat) (w : World page) :
  ∃ s, random_string n w = (inr s, with_drawn (λ k, k + n) w)
       ∧ String.length s = n
       ∧ Forall (λ c, c ∈ alphabet) (list_ascii_of_string s)
       ∧ ∀ j, j < n →
           String.get j s
           = alphabet !! (generator w (drawn w + j) mod length alphabet).
Proof.
  unfold random_string, M.bind, choices, M.ret. eexists.
  split; [reflexivity|].
  split; [by rewrite length_string_of_list_ascii, length_map, length_seq|].
  split.
  - rewrite list_ascii_of_string_of_list_ascii. apply Forall_map, Forall_forall.
    intros j _. apply list_elem_of_In, nth_In.
    apply Nat.mod_upper_bound. done.
  - intros j Hj. rewrite get_string_of_list_ascii, list_lookup_fmap.
    rewrite lookup_seq_lt by done. cbn [fmap option_fmap option_map Nat.add].
    assert (generator w (drawn w + j) mod length alphabet < length alphabet)
      as Hlt by (by apply Nat.mod_upper_bound).
    destruct (lookup_lt_is_Some_2 alphabet _ Hlt) as [c Hc]. rewrite Hc.
    f_equal. by apply nth_lookup_Some.
Qed.

(** *** The block that opens, rewrites and saves the document *)

Lemma transform_saves path location (w : World page) p0 rest entries evs pg' :
  files w !! key path = Some (Pdf (p0 :: rest)) →
  actions_yaml w = Holds entries →
  apply_entries entries p0 = (evs, inr pg') →
  transform path location w
  = (inr tt,
     with_files (<[key location := Pdf [pg']]>)
       (with_journal (λ j, j ++ evs) w)).
Proof.
  intros Hfile Hact Hrun.
  unfold transform, M.bind, fitz_open, actions, on_page. rewrite Hfile. cbn.
  rewrite Hact, Hrun. cbn. reflexivity.
Qed.

Lemma transform_empty path location (w : World page) :
  files w !! key path = Some (Pdf []) →
  transform path location w = (inl BadPageNumbers, w).
Proof.
  intros Hfile. unfold transform, M.bind, fitz_open. by rewrite Hfile.
Qed.

Lemma transform_no_rules path location (w : World page) p0 rest e :
  files w !! key path = Some (Pdf (p0 :: rest)) →
  actions w = (inl e, w) →
  transform path location w = (inl e, w).
Proof.
  intros Hfile Hact.
  unfold transform, M.bind, fitz_open. rewrite Hfile. cbn.
  rewrite Hact. done.
Qed.

(** When the block saves, the body of the caller runs in the world that
    holds the saved file, and the directory is removed after it. *)
Lemma process_document_saves path (w : World page) p0 rest entries evs pg' :
  files w !! key path = Some (Pdf (p0 :: rest)) →
  actions_yaml w = Holds entries →
  apply_entries entries p0 = (evs, inr pg') →
  ∃ hash w1,
    let d := fresh (tmp_dirs w) in
    let location :=
      mkPath d (stem path +:+ "-" +:+ hash +:+ "." +:+ suffix path) in
    String.length hash = 8
    ∧ Forall (λ c, c ∈ alphabet) (list_ascii_of_string hash)
    ∧ (∀ j, j < 8 →
         String.get j hash
         = alphabet !! (generator w (drawn w + j) mod length alphabet))
    ∧ drawn w1 = drawn w + 8
    ∧ files w1 = <[key location := Pdf [pg']]> (files w)
    ∧ tmp_dirs w1 = {[d]} ∪ tmp_dirs w
    ∧ sent w1 = sent w
    ∧ journal w1 = journal w ++ evs
    ∧ ∀ A (body : Path → M.t page A),
        process_document path body w
        = (let '(r, w2) := body location w1 in (r, cleanup d w2)).
Proof.
  intros Hfile Hact Hrun.
  destruct (random_string_draws 8
              (with_tmp_dirs (λ ds, {[fresh (tmp_dirs w)]} ∪ ds) w))
    as (hash & Hrs & Hlen & Hchars & Hdraws).
  exists hash.
  exists (with_files
            (<[key (mkPath (fresh (tmp_dirs w))
                      (stem path +:+ "-" +:+ hash +:+ "." +:+ suffix path))
               := Pdf [pg']]>)
            (with_journal (λ j, j ++ evs)
               (with_drawn (λ k, k + 8)
                  (with_tmp_dirs (λ ds, {[fresh (tmp_dirs w)]} ∪ ds) w)))).
  cbn zeta. do 8 (split; [done|]).
  intros A body.
  unfold process_document, TemporaryDirectory, mkdtemp.
  unfold M.bind at 1. rewrite Hrs. unfold M.bind at 1.
  by erewrite transform_saves.
Qed.

(** When the block raises without touching the world, the context manager
    raises the same exception: the body of the caller does not run, and
    the directory is removed again. *)
Lemma process_document_fails path (w : World page) e :
  (∀ location w0,
     files w0 = files w → actions_yaml w0 = actions_yaml w →
     journal w0 = journal w → sent w0 = sent w →
     transform path location w0 = (inl e, w0)) →
  ∃ w',
    files w' ⊆ files w ∧ sent w' = sent w ∧ journal w' = journal w
    ∧ ∀ A (body : Path → M.t page A),
        process_document path body w = (inl e, w').
Proof.
  intros Hfail.
  destruct (random_string_spec 8
              (with_tmp_dirs (λ ds, {[fresh (tmp_dirs w)]} ∪ ds) w))
    as (hash & Hrs & _).
  eexists (cleanup (fresh (tmp_dirs w))
             (with_drawn (λ k, k + 8)
                (with_tmp_dirs (λ ds, {[fresh (tmp_dirs w)]} ∪ ds) w))).
  split; [apply map_filter_subseteq|]. do 2 (split; [done|]).
  intros A body.
  unfold process_document, TemporaryDirectory, mkdtemp.
  unfold M.bind at 1. rewrite Hrs. unfold M.bind at 1.
  by rewrite Hfail.
Qed.

(** *** The claims about [process_document] *)

(** C4: when the input holds a document with at least one page and the
    rules load and run, the output is saved in a temporary directory
    that did not exist before, under the name made of the stem of the
    input name, a dash, eight characters, a dot and the suffix of the
    input name.  The eight characters are the ones the next eight draws
    of the random generator pick from the lowercase letters and the
    digits, and those draws are consumed; the body of the caller's [with]
    block runs with that location. *)
Theorem output_location path (w : World page) p0 rest entries evs pg' :
  files w !! key path = Some (Pdf (p0 :: rest)) →
  actions_yaml w = Holds entries →
  apply_entries entries p0 = (evs, inr pg') →
  ∃ hash w1,
    let d := fresh (tmp_dirs w) in
    let location :=
      mkPath d (stem path +:+ "-" +:+ hash +:+ "." +:+ suffix path) in
    (d ∉ tmp_dirs w)
    ∧ (d ∈ tmp_dirs w1)
    ∧ String.length hash = 8
    ∧ Forall (λ c, c ∈ alphabet) (list_ascii_of_string hash)
    ∧ (∀ j, j < 8 →
         String.get j hash
         = alphabet !! (generator w (drawn w + j) mod length alphabet))
    ∧ drawn w1 = drawn w + 8
    ∧ is_Some (files w1 !! key location)
    ∧ ∀ A (body : Path → M.t page A),
        process_document path body w
        = (let '(r, w2) := body location w1 in (r, cleanup d w2)).
Proof.
  intros Hfile Hact Hrun.
  destruct (process_document_saves path w p0 rest entries evs pg' Hfile Hact Hrun)
    as (hash & w1 & Hlen & Hchars & Hdraws & Hdrawn & Hfiles & Hdirs & _ & _
        & Hbody).
  exists hash, w1. cbn zeta. split; [apply is_fresh|].
  split; [rewrite Hdirs; by apply elem_of_union_l, elem_of_singleton|].
  do 4 (split; [done|]).
  split; [|done]. rewrite Hfiles, lookup_insert_eq. eauto.
Qed.

(** C5: when the input holds a document with at least one page and the
    rules load and run, the document saved has exactly one page, the page
    the rules made of page 0 of the input; the other pages of the input
    are not in it. *)
Theorem saved_document_has_one_page path (w : World page) p0 rest entries
    evs pg' :
  files w !! key path = Some (Pdf (p0 :: rest)) →
  actions_yaml w = Holds entries →
  apply_entries entries p0 = (evs, inr pg') →
  ∃ location w1 saved,
    files w1 !! key location = Some (Pdf saved)
    ∧ length saved = 1
    ∧ saved = [pg']
    ∧ ∀ A (body : Path → M.t page A),
        process_document path body w
        = (let '(r, w2) := body location w1 in
           (r, cleanup (fresh (tmp_dirs w)) w2)).
Proof.
  intros Hfile Hact Hrun.
  destruct (process_document_saves path w p0 rest entries evs pg' Hfile Hact Hrun)
    as (hash & w1 & _ & _ & _ & _ & Hfiles & _ & _ & _ & Hbody).
  eexists _, w1, [pg']. split; [|done].
  by rewrite Hfiles, lookup_insert_eq.
Qed.

(** C6: when the input holds a document with no page, the engine raises
    the error of [Document.select], a [PageSelectionFailed] condition; the
    body of the caller's [with] block does not run, and no file, reply or
    journal entry is added. *)
Theorem empty_document_fails path (w : World page) :
  files w !! key path = Some (Pdf []) →
  ∃ w',
    condition BadPageNumbers = Some PageSelectionFailed
    ∧ files w' ⊆ files w ∧ sent w' = sent w ∧ journal w' = journal w
    ∧ ∀ A (body : Path → M.t page A),
        process_document path body w = (inl BadPageNumbers, w').
Proof.
  intros Hfile.
  destruct (process_document_fails path w BadPageNumbers) as (w' & Hw').
  { intros location w0 Hfiles _ _ _. apply transform_empty. by rewrite Hfiles. }
  exists w'. done.
Qed.

(** *** The handler *)

(** A message without a document, or with a document whose name does not
    end in ".pdf", is ignored: nothing is downloaded, processed or sent. *)
Lemma handler_ignores_non_pdf update msg (w : World page) :
  message update = Some msg →
  document msg = None
  ∨ (∃ doc fname, document msg = Some doc ∧ file_name doc = Some fname
                  ∧ PyStr.endswith fname ".pdf" = false) →
  handler update w = (inr tt, w).
Proof.
  intros Hmsg Hdoc. unfold handler. rewrite Hmsg.
  destruct Hdoc as [->|(doc & fname & -> & -> & Hsuffix)]; [done|].
  unfold M.bind, M.ret. by rewrite Hsuffix.
Qed.

(** Removing the download directory removes the downloaded file. *)
Lemma cleanup_after_download d fname data (w w' : World page) :
  files w' ⊆ <[(d, fname) := data]> (files w) →
  files (cleanup d w') ⊆ files w.
Proof.
  intros Hsub. apply map_subseteq_spec. intros k v Hk.
  apply map_lookup_filter_Some in Hk as [Hk Hdir].
  eapply lookup_weaken in Hk; [|done].
  rewrite lookup_insert_ne in Hk; [done|]. intros <-. by apply Hdir.
Qed.

(** A message whose document has a plain name is downloaded into a new
    directory, where the body of the caller's [with] block finds it. *)
Lemma download_document_plain {A} msg doc fname data (body : Path → M.t page A)
    (w : World page) :
  document msg = Some doc → file_name doc = Some fname →
  plain_name fname = true → platform w !! file_id doc = Some data →
  download_document msg body w
  = (let d := fresh (tmp_dirs w) in
     let '(r, w2) :=
       body (mkPath d fname)
         (with_files (<[key (mkPath d fname) := data]>)
            (with_tmp_dirs (λ ds, {[d]} ∪ ds) w)) in
     (r, cleanup d w2)).
Proof.
  intros Hdoc Hname Hplain Hfile. unfold download_document. rewrite Hdoc.
  unfold M.bind at 1, get_file. rewrite Hfile.
  unfold TemporaryDirectory, mkdtemp. rewrite Hname.
  unfold M.bind at 1, joinpath. rewrite Hplain. done.
Qed.

(** C2, as the code has it: when the rules file is missing or malformed,
    the application is still built from a non-empty token and an integer
    user id, and what the constructor does is the same for any rules
    file; a message without a document is handled as usual.  The failure
    is per message: handling a message whose document has a plain name
    ending in ".pdf" and at least one page raises the configuration error
    after the download, and neither a file nor a reply is left behind. *)
Theorem rules_failure_is_per_message (w : World page) :
  actions_yaml w = Missing ∨ actions_yaml w = Malformed →
  (∀ token user, token_txt w = Some token → token ≠ "" →
     user_id_txt w = Holds user →
     App_init w = (inr (mkApp token user), w))
  ∧ (∀ rules, (App_init (with_actions_yaml rules w)).1 = (App_init w).1)
  ∧ (∀ chat, handler (mkUpdate (Some (mkMessage chat None))) w = (inr tt, w))
  ∧ (∀ chat doc fname p0 rest,
       file_name doc = Some fname → plain_name fname = true →
       PyStr.endswith fname ".pdf" = true →
       platform w !! file_id doc = Some (Pdf (p0 :: rest)) →
       ∃ e w',
         handler (mkUpdate (Some (mkMessage chat (Some doc)))) w = (inl e, w')
         ∧ condition e = Some ConfigurationUnavailable
         ∧ files w' ⊆ files w ∧ sent w' = sent w).
Proof.
  intros Hrules. split; [|split; [|split]].
  - intros token user Htoken Hnonempty Huser.
    unfold App_init, M.bind, _token, _user_id. rewrite Htoken.
    apply String.eqb_neq in Hnonempty. rewrite Hnonempty. cbn.
    by rewrite Huser.
  - intros rules. unfold App_init, M.bind, _token, _user_id.
    cbn [with_actions_yaml token_txt user_id_txt].
    destruct (token_txt w) as [token|]; [|done].
    destruct (String.eqb token ""); [done|]. cbn.
    by destruct (user_id_txt w).
  - done.
  - intros chat doc fname p0 rest Hname Hplain Hsuffix Hfile.
    assert (∃ e, condition e = Some ConfigurationUnavailable
                 ∧ ∀ w0 : World page, actions_yaml w0 = actions_yaml w →
                     actions w0 = (inl e, w0)) as (e & He & Hact).
    { destruct Hrules as [Hr|Hr].
      - exists (FileNotFoundError ".actions.yaml"). split; [done|].
        intros w0 Hw0. unfold actions. by rewrite Hw0, Hr.
      - exists YAMLError. split; [done|].
        intros w0 Hw0. unfold actions. by rewrite Hw0, Hr. }
    set (d := fresh (tmp_dirs w)).
    set (w1 := with_files (<[key (mkPath d fname) := Pdf (p0 :: rest)]>)
                 (with_tmp_dirs (λ ds, {[d]} ∪ ds) w)).
    destruct (process_document_fails (mkPath d fname) w1 e)
      as (w2 & Hfiles & Hsent & _ & Hrun).
    { intros location w0 Hf Ha _ _.
      apply (transform_no_rules _ _ _ p0 rest); [|by apply Hact].
      by rewrite Hf; apply lookup_insert_eq. }
    exists e, (cleanup d w2). split; [|split; [done|split]].
    + unfold handler. cbn [message document chat_id]. rewrite Hname.
      unfold M.bind at 1. unfold M.ret at 1. rewrite Hsuffix. cbn [negb].
      rewrite (download_document_plain _ doc fname (Pdf (p0 :: rest)))
        by done.
      cbn zeta. fold d. fold w1. by rewrite Hrun.
    + by apply (cleanup_after_download d fname (Pdf (p0 :: rest))).
    + done.
Qed.

(** C10: a message whose document has no file name makes the handler
    raise: the suffix test is applied to the absent name, and the error is
    the [AttributeError] of [None.endswith]; nothing else happens. *)
Theorem nameless_document_raises update msg doc (w : World page) :
  message update = Some msg → document msg = Some doc →
  file_name doc = None →
  handler update w = (inl (NoneTypeAttributeError "endswith"), w).
Proof.
  intros Hmsg Hdoc Hname. unfold handler. rewrite Hmsg, Hdoc, Hname. done.
Qed.

End ProgramFacts.

(** ** The program on concrete inputs *)

Example invoice_run :
  apply_entries [Sheet.invoice_rule] Sheet.invoice_page
  = (Sheet.invoice_events, inr Sheet.invoice_done)
  ∧ calls Sheet.invoice_events
    = [SearchFor Sheet.invoice_page "Invoice";
       AddRedactAnnot (mkRect 10 20 66 30); ApplyRedactions;
       InsertText (mkPoint 10 30) "Invoice" 8 "helv" (0, 0, 0)%Z]
  ∧ log_lines Sheet.invoice_events
    = ["Found 1 occurrences of Invoice";
       "Replaced instance 1 of Invoice with Receipt."].
Proof. repeat split; reflexivity. Qed.

(** A whole exchange: the reply is the one-page document, under the
    name with the doubled dot that [f"{stem}-{hash}.{suffix}"] makes, and
    both temporary directories are gone afterwards. *)
Example handler_round_trip :
  let out := handler (Sheet.inbound (Some "invoice.pdf"))
               (with_files (λ _, ∅) (with_tmp_dirs (λ _, ∅) Sheet.two_pages)) in
  out.1 = inr tt
  ∧ sent out.2 = [(5%Z, "invoice-dkry5cjq..pdf", Pdf [Sheet.invoice_done])]
  ∧ files out.2 = ∅ ∧ tmp_dirs out.2 = ∅
  ∧ journal out.2 = Sheet.invoice_events.
Proof. vm_compute. repeat split; reflexivity. Qed.

(** With a library whose calls all raise, a rule that is run raises and a
    rule that is skipped does not. *)
Example broken_library :
  (@apply_entry _ Sheet.broken Sheet.invoice_rule Sheet.invoice_page).2
  = inl (FitzError 1)
  ∧ @apply_entry _ Sheet.broken (Sheet.rule "Invoice" "") Sheet.invoice_page
    = ([], inr Sheet.invoice_page).
Proof. split; reflexivity. Qed.

(** The second of two rules with the same find text searches the page the
    first rule left, and finds the re-inserted run, not the original one. *)
Example second_search_sees_first_rule :
  calls (apply_entries [Sheet.invoice_rule; Sheet.rule "Invoice" "Bill"]
           Sheet.invoice_page).1 !! 4%nat
  = Some (SearchFor Sheet.invoice_done "Invoice")
  ∧ calls (apply_entries [Sheet.invoice_rule; Sheet.rule "Invoice" "Bill"]
             Sheet.invoice_page).1 !! 5%nat
    = Some (AddRedactAnnot (mkRect 10 22 66 30))
  ∧ search_for Sheet.invoice_page "Invoice" = inr [mkRect 10 20 66 30].
Proof. repeat split; reflexivity. Qed.

Example plain_names :
  plain_name "invoice.pdf" = true ∧ plain_name "/tmp/gwtmp/evil.pdf" = false
  ∧ plain_name "sub/evil.pdf" = false ∧ plain_name "" = false
  ∧ plain_name ".." = false.
Proof. repeat split; reflexivity. Qed.

(** An absolute file name takes the download out of the temporary
    directory: the reply is named after the last component, and the
    downloaded file is still there when the handler has returned. *)
Example absolute_name_escapes :
  let out := handler (Sheet.inbound (Some "/tmp/gwtmp/evil.pdf"))
               (with_files (λ _, ∅)
                  (with_tmp_dirs (λ _, ∅) (Sheet.mounted Sheet.two_pages))) in
  out.1 = inr tt
  ∧ sent out.2 = [(5%Z, "evil-dkry5cjq..pdf", Pdf [Sheet.invoice_done])]
  ∧ files out.2
    = {[ (9%nat, "evil.pdf") := Pdf [Sheet.invoice_page; Sheet.cover_page] ]}
  ∧ tmp_dirs out.2 = ∅.
Proof. vm_compute. repeat split; reflexivity. Qed.

(** A name with a directory in it makes the download fail, for the
    directory does not exist in the new temporary directory; nothing is
    sent. *)
Example nested_name_fails :
  let out := handler (Sheet.inbound (Some "sub/evil.pdf")) Sheet.two_pages in
  out.1 = inl (FileNotFoundError "sub/evil.pdf")
  ∧ sent out.2 = [] ∧ tmp_dirs out.2 = tmp_dirs Sheet.two_pages.
Proof. vm_compute. repeat split; reflexivity. Qed.

(** An empty token file stops the constructor. *)
Example empty_token :
  (App_init (mkWorld (Some "") (Holds 7%Z) (Holds []) ∅ ∅ (λ n, n) 0 ∅
               (λ _ fname, inl (FileNotFoundError fname)) [] []
             : World Sheet.t)).1
  = inl InvalidToken.
Proof. reflexivity. Qed.

Lemma find_text_is_reinserted_witness :
  (apply_entry Sheet.invoice_rule Sheet.invoice_page).2
  = match search_for Sheet.invoice_page "Invoice" with
    | inl e => inl e
    | inr found => page_after_found "Invoice" found Sheet.invoice_page
    end
  ∧ Forall (λ s, s = "Invoice")
      (written (calls (apply_entry Sheet.invoice_rule Sheet.invoice_page).1))
  ∧ (∀ other, other ≠ "" →
       on_document (apply_entry (<["with" := other]> Sheet.invoice_rule)
                      Sheet.invoice_page)
       = on_document (apply_entry Sheet.invoice_rule Sheet.invoice_page))
  ∧ (∀ evs pg',
       apply_entry Sheet.invoice_rule Sheet.invoice_page = (evs, inr pg') →
       ∃ found,
         search_for Sheet.invoice_page "Invoice" = inr found
         ∧ page_after_found "Invoice" found Sheet.invoice_page = inr pg'
         ∧ calls evs
           = SearchFor Sheet.invoice_page "Invoice"
             :: flat_map (λ rect, [AddRedactAnnot rect; ApplyRedactions;
                                   InsertText (mkPoint (x0 rect) (y1 rect))
                                     "Invoice" 8 "helv" (0, 0, 0)%Z]) found).
Proof.
  apply (find_text_is_reinserted Sheet.invoice_rule "Invoice" "Receipt"
           Sheet.invoice_page);
    [reflexivity | reflexivity | discriminate | discriminate].
Defined.

(** C3 as stated fails: on the invoice page the one insertion starts at
    (10, 30), the bottom-left corner of the redacted region, while the
    region's top-left corner is (10, 20). *)
Lemma insertion_not_at_top_left :
  ¬ placed_at_top_left
      (calls (apply_entries [Sheet.invoice_rule] Sheet.invoice_page).1).
Proof.
  intros P.
  destruct (P 3%nat (mkPoint 10 30) "Invoice" 8%Z "helv" (0, 0, 0)%Z eq_refl)
    as (rect & _ & Hmark & _ & Hpt & _).
  injection Hmark as <-. discriminate Hpt.
Qed.

Lemma inert_entry_is_skipped_witness :
  apply_entry (Sheet.rule "Invoice" "") Sheet.invoice_page
  = ([], inr Sheet.invoice_page)
  ∧ apply_entries ([Sheet.invoice_rule] ++ Sheet.rule "Invoice" "" :: [])
      Sheet.invoice_page
    = apply_entries ([Sheet.invoice_rule] ++ []) Sheet.invoice_page.
Proof.
  apply (inert_entry_is_skipped (Sheet.rule "Invoice" "") [Sheet.invoice_rule]
           [] Sheet.invoice_page).
  right; right; right. reflexivity.
Defined.

Lemma entries_run_in_order_witness :
  apply_entries ([Sheet.invoice_rule] ++ Sheet.rule "Invoice" "Bill" :: [])
    Sheet.invoice_page
  = (let* pg1 := apply_entries [Sheet.invoice_rule] Sheet.invoice_page in
     let* pg2 := apply_entry (Sheet.rule "Invoice" "Bill") pg1 in
     apply_entries [] pg2)
  ∧ (apply_entries [Sheet.invoice_rule] Sheet.invoice_page).2
    = page_after_entries [Sheet.invoice_rule] Sheet.invoice_page
  ∧ ∀ pg1,
      page_after_entries [Sheet.invoice_rule] Sheet.invoice_page = inr pg1 →
      ∃ evs evs',
        apply_entries [Sheet.invoice_rule] Sheet.invoice_page = (evs, inr pg1)
        ∧ (apply_entries
             ([Sheet.invoice_rule] ++ Sheet.rule "Invoice" "Bill" :: [])
             Sheet.invoice_page).1
          = evs ++ Lib (SearchFor pg1 "Invoice") :: evs'.
Proof.
  apply (entries_run_in_order [Sheet.invoice_rule] [] (Sheet.rule "Invoice" "Bill")
           "Invoice" "Bill" Sheet.invoice_page);
    [reflexivity | reflexivity | discriminate | discriminate].
Defined.

Lemma output_location_witness :
  ∃ hash w1,
    let d := fresh (tmp_dirs Sheet.two_pages) in
    let location :=
      mkPath d (stem Sheet.original +:+ "-" +:+ hash +:+ "."
                +:+ suffix Sheet.original) in
    (d ∉ tmp_dirs Sheet.two_pages)
    ∧ (d ∈ tmp_dirs w1)
    ∧ String.length hash = 8
    ∧ Forall (λ c, c ∈ alphabet) (list_ascii_of_string hash)
    ∧ (∀ j, j < 8 →
         String.get j hash
         = alphabet !! (generator Sheet.two_pages (drawn Sheet.two_pages + j)
                        mod length alphabet))
    ∧ drawn w1 = drawn Sheet.two_pages + 8
    ∧ is_Some (files w1 !! key location)
    ∧ ∀ A (body : Path → M.t Sheet.t A),
        process_document Sheet.original body Sheet.two_pages
        = (let '(r, w2) := body location w1 in (r, cleanup d w2)).
Proof.
  apply (output_location Sheet.original Sheet.two_pages Sheet.invoice_page
           [Sheet.cover_page] [Sheet.invoice_rule] Sheet.invoice_events
           Sheet.invoice_done);
    reflexivity.
Defined.

Lemma saved_document_has_one_page_witness :
  ∃ location w1 saved,
    files w1 !! key location = Some (Pdf saved)
    ∧ length saved = 1
    ∧ saved = [Sheet.invoice_done]
    ∧ ∀ A (body : Path → M.t Sheet.t A),
        process_document Sheet.original body Sheet.two_pages
        = (let '(r, w2) := body location w1 in
           (r, cleanup (fresh (tmp_dirs Sheet.two_pages)) w2)).
Proof.
  apply (saved_document_has_one_page Sheet.original Sheet.two_pages
           Sheet.invoice_page [Sheet.cover_page] [Sheet.invoice_rule]
           Sheet.invoice_events Sheet.invoice_done);
    reflexivity.
Defined.

Lemma empty_document_fails_witness :
  ∃ w',
    condition BadPageNumbers = Some PageSelectionFailed
    ∧ files w' ⊆ files (Sheet.world (Holds [Sheet.invoice_rule]) (Pdf []))
    ∧ sent w' = sent (Sheet.world (Holds [Sheet.invoice_rule]) (Pdf []))
    ∧ journal w' = journal (Sheet.world (Holds [Sheet.invoice_rule]) (Pdf []))
    ∧ ∀ A (body : Path → M.t Sheet.t A),
        process_document Sheet.original body
          (Sheet.world (Holds [Sheet.invoice_rule]) (Pdf []))
        = (inl BadPageNumbers, w').
Proof.
  apply (empty_document_fails Sheet.original
           (Sheet.world (Holds [Sheet.invoice_rule]) (Pdf []))).
  reflexivity.
Defined.

(** C2 as stated fails: with the rules file missing, the constructor
    returns the application; it raises nothing. *)
Lemma startup_with_missing_rules :
  actions_yaml (Sheet.world Missing (Pdf [Sheet.invoice_page])) = Missing
  ∧ App_init (Sheet.world Missing (Pdf [Sheet.invoice_page]))
    = (inr (mkApp "123:abc" 7), Sheet.world Missing (Pdf [Sheet.invoice_page]))
  ∧ ¬ ∃ e w',
        App_init (Sheet.world Missing (Pdf [Sheet.invoice_page])) = (inl e, w').
Proof.
  split; [reflexivity|]. split; [reflexivity|]. intros (e & w' & Hinit).
  discriminate Hinit.
Qed.

Lemma rules_failure_is_per_message_witness :
  let w := Sheet.world Missing (Pdf [Sheet.invoice_page]) in
  (∀ token user, token_txt w = Some token → token ≠ "" →
     user_id_txt w = Holds user →
     App_init w = (inr (mkApp token user), w))
  ∧ (∀ rules, (App_init (with_actions_yaml rules w)).1 = (App_init w).1)
  ∧ (∀ chat, handler (mkUpdate (Some (mkMessage chat None))) w = (inr tt, w))
  ∧ (∀ chat doc fname p0 rest,
       file_name doc = Some fname → plain_name fname = true →
       PyStr.endswith fname ".pdf" = true →
       platform w !! file_id doc = Some (Pdf (p0 :: rest)) →
       ∃ e w',
         handler (mkUpdate (Some (mkMessage chat (Some doc)))) w = (inl e, w')
         ∧ condition e = Some ConfigurationUnavailable
         ∧ files w' ⊆ files w ∧ sent w' = sent w).
Proof.
  apply (rules_failure_is_per_message
           (Sheet.world Missing (Pdf [Sheet.invoice_page]))).
  left. reflexivity.
Defined.

(** C8 at the input it fails on: the message carries a document that has
    no file name, so no name ending in ".pdf", and the handler raises
    instead of returning. *)
Theorem nameless_document_is_not_ignored :
  (∃ msg doc,
     message (Sheet.inbound None) = Some msg ∧ document msg = Some doc
     ∧ ¬ ∃ fname, file_name doc = Some fname
                  ∧ PyStr.endswith fname ".pdf" = true)
  ∧ handler (Sheet.inbound None) Sheet.two_pages
    = (inl (NoneTypeAttributeError "endswith"), Sheet.two_pages).
Proof.
  split; [|reflexivity].
  eexists _, _. split; [reflexivity|]. split; [reflexivity|].
  intros (fname & Hname & _). discriminate Hname.
Qed.

Lemma nameless_document_raises_witness :
  handler (Sheet.inbound None) Sheet.two_pages
  = (inl (NoneTypeAttributeError "endswith"), Sheet.two_pages).
Proof.
  apply (nameless_document_raises (Sheet.inbound None)
           (mkMessage 5 (Some (mkDocument "file-1" None)))
           (mkDocument "file-1" None) Sheet.two_pages);
    reflexivity.
Defined.

(** * Further results *)

(** ** More on the engine *)

Section EngineMore.

Context {page : Type} `{Fitz page}.

Lemma log_lines_app (l1 l2 : list (Event page)) :
  log_lines (l1 ++ l2) = log_lines l1 ++ log_lines l2.
Proof.
  induction l1 as [|[c|line] l1 IH]; simpl; [done | done | by rewrite IH].
Qed.

Lemma apply_entry_written (entry : Entry) (pg : page) :
  Forall (λ s, entry !! "replace" = Some s ∧ s ≠ ""
               ∧ PyStr.truthy (entry !! "with") = true)
    (written (calls (apply_entry entry pg).1)).
Proof.
  unfold apply_entry.
  destruct (PyStr.truthy (entry !! "replace")) eqn:Hfind; [|constructor].
  destruct (PyStr.truthy (entry !! "with")) eqn:Hnew; [|constructor].
  cbn [negb orb].
  destruct (entry !! "replace") as [text|]; [|constructor].
  destruct (entry !! "with") as [new_text|]; [|constructor].
  assert (text ≠ "") as Htext.
  { intros ->. discriminate Hfind. }
  rewrite bind_events, calls_app, written_app. apply Forall_app.
  split; [constructor|].
  destruct ((Eng.call (SearchFor pg text) (search_for pg text)).2)
    as [e|found]; [constructor|].
  rewrite bind_events, calls_app, written_app. apply Forall_app.
  split; [constructor|].
  eapply Forall_impl; [apply replace_found_written|].
  intros s ->. done.
Qed.

Lemma replace_instance_log text new_text i rect (pg pg' : page) evs :
  replace_instance text new_text i rect pg = (evs, inr pg') →
  log_lines evs
  = ["Replaced instance " +:+ pretty (i + 1)%nat +:+ " of " +:+ text
     +:+ " with " +:+ new_text +:+ "."].
Proof.
  unfold replace_instance, Eng.bind, Eng.call, Eng.info, Eng.ret.
  destruct (add_redact_annot pg rect) as [e|p1]; simpl; [done|].
  destruct (apply_redactions p1) as [e|p2]; simpl; [done|].
  destruct (insert_text p2 _ text _ _ _) as [e|p3]; simpl; [done|].
  by intros [= <- <-].
Qed.

Lemma replace_found_log text new_text i found (pg pg' : page) evs :
  replace_found text new_text i found pg = (evs, inr pg') →
  log_lines evs
  = map (λ j, "Replaced instance " +:+ pretty (j + 1)%nat +:+ " of " +:+ text
              +:+ " with " +:+ new_text +:+ ".")
      (seq i (length found)).
Proof.
  revert i pg evs. induction found as [|rect found IH]; intros i pg evs.
  - by intros [= <- <-].
  - cbn [replace_found]. intros Hrun.
    apply bind_inr in Hrun as (evs1 & pg1 & evs2 & Hone & Hrest & ->).
    rewrite log_lines_app, (replace_instance_log _ _ _ _ _ _ _ Hone).
    by rewrite (IH _ _ _ Hrest).
Qed.

(** X2: a list of rules that are all inert, the empty list among them,
    does nothing at all. *)
Theorem inert_rules_do_nothing (entries : list Entry) (pg : page) :
  Forall inert entries → apply_entries entries pg = ([], inr pg).
Proof.
  induction 1 as [|entry entries Hinert _ IH]; [done|].
  cbn [apply_entries]. rewrite (apply_entry_inert _ _ Hinert), bind_ret_l.
  apply IH.
Qed.

(** X6: an exception raised while the rules run ends the loop: the rules
    after the failing one are not run, and the exception is the outcome. *)
Theorem failure_aborts_remaining_rules (before after : list Entry) (pg : page)
    evs e :
  apply_entries before pg = (evs, inl e) →
  apply_entries (before ++ after) pg = (evs, inl e).
Proof. intros Hfail. by rewrite apply_entries_app, Hfail. Qed.

(** X3: a rule whose find text does not occur on the page makes one
    search and one log line and leaves the page as it is. *)
Theorem no_occurrence_no_change (entry : Entry) text new_text (pg : page) :
  entry !! "replace" = Some text → entry !! "with" = Some new_text →
  text ≠ "" → new_text ≠ "" →
  search_for pg text = inr [] →
  apply_entry entry pg
  = ([Lib (SearchFor pg text); Info ("Found 0 occurrences of " +:+ text)],
     inr pg).
Proof.
  intros Ht Hn Ht0 Hn0 Hnone.
  rewrite (apply_entry_live _ _ _ _ Ht Hn Ht0 Hn0), Hnone. reflexivity.
Qed.

(** X4: the log of a rule that ran: the number of occurrences found, then
    one line per occurrence, numbered from 1, each naming the replacement
    text although the find text is what was inserted. *)
Theorem log_names_the_replacement (entry : Entry) text new_text (pg pg' : page)
    evs found :
  entry !! "replace" = Some text → entry !! "with" = Some new_text →
  text ≠ "" → new_text ≠ "" →
  search_for pg text = inr found →
  apply_entry entry pg = (evs, inr pg') →
  log_lines evs
  = ("Found " +:+ pretty (length found) +:+ " occurrences of " +:+ text)
    :: map (λ j, "Replaced instance " +:+ pretty (j + 1)%nat +:+ " of "
                 +:+ text +:+ " with " +:+ new_text +:+ ".")
         (seq 0 (length found)).
Proof.
  intros Ht Hn Ht0 Hn0 Hsearch.
  rewrite (apply_entry_live _ _ _ _ Ht Hn Ht0 Hn0), Hsearch. intros Hrun.
  apply bind_inr in Hrun as (evs1 & found' & evs2 & Hcall & Hrun & ->).
  injection Hcall as <- <-.
  apply bind_inr in Hrun as (evs3 & [] & evs4 & Hinfo & Hrun & ->).
  injection Hinfo as <-.
  rewrite !log_lines_app. cbn [log_lines app]. f_equal.
  by apply replace_found_log in Hrun.
Qed.

(** X5: whatever the rules and however the run ends, every text written
    into the document is the non-empty find text of one of the rules, and
    that rule has a non-empty replacement. *)
Theorem written_texts_are_find_texts (entries : list Entry) (pg : page) s :
  s ∈ written (calls (apply_entries entries pg).1) →
  ∃ entry, entry ∈ entries ∧ entry !! "replace" = Some s ∧ s ≠ ""
           ∧ PyStr.truthy (entry !! "with") = true.
Proof.
  revert pg. induction entries as [|entry entries IH]; intros pg.
  - intros Hin. by apply elem_of_nil in Hin.
  - cbn [apply_entries]. rewrite bind_events, calls_app, written_app.
    intros [Hin|Hin]%elem_of_app.
    + exists entry. split; [left|].
      pose proof (apply_entry_written entry pg) as Hall.
      rewrite Forall_forall in Hall. by apply Hall.
    + destruct ((apply_entry entry pg).2) as [e|pg1].
      { by apply elem_of_nil in Hin. }
      destruct (IH _ Hin) as (entry' & Hin' & Hrest).
      exists entry'. split; [by right|done].
Qed.

End EngineMore.

(** ** More on strings and paths *)

Lemma append_cons (a : ascii) (s1 s2 : string) :
  String a s1 +:+ s2 = String a (s1 +:+ s2).
Proof. reflexivity. Qed.

Lemma append_nil_r (s : string) : s +:+ "" = s.
Proof. induction s as [|a s IH]; [done | by rewrite append_cons, IH]. Qed.

Lemma length_append (s1 s2 : string) :
  String.length (s1 +:+ s2) = String.length s1 + String.length s2.
Proof.
  induction s1 as [|a s1 IH]; [done|]. rewrite append_cons. simpl.
  by rewrite IH.
Qed.

Lemma substring_all (s : string) : String.substring 0 (String.length s) s = s.
Proof. induction s as [|a s IH]; simpl; [done | by rewrite IH]. Qed.

Lemma substring_split (s : string) (i : nat) :
  (i ≤ String.length s)%nat →
  String.substring 0 i s +:+ String.substring i (String.length s - i) s = s.
Proof.
  revert i. induction s as [|a s IH]; intros [|i] Hi; simpl in *; try lia.
  - done.
  - by rewrite substring_all.
  - rewrite append_cons, IH by lia. done.
Qed.

Lemma substring_app_take (s1 s2 : string) :
  String.substring 0 (String.length s1) (s1 +:+ s2) = s1.
Proof.
  induction s1 as [|a s1 IH]; [by destruct s2|].
  rewrite append_cons. simpl. by rewrite IH.
Qed.

Lemma substring_app_drop (s1 s2 : string) (k : nat) :
  String.substring (String.length s1) k (s1 +:+ s2) = String.substring 0 k s2.
Proof.
  induction s1 as [|a s1 IH]; [done|]. rewrite append_cons. simpl. apply IH.
Qed.

Lemma rfind_from_app (c : ascii) (s1 s2 : string) (i : nat) :
  PyStr.rfind_from c (s1 +:+ s2) i
  = match PyStr.rfind_from c s2 (i + String.length s1) with
    | Some j => Some j
    | None => PyStr.rfind_from c s1 i
    end.
Proof.
  revert i. induction s1 as [|a s1 IH]; intros i.
  - change ("" +:+ s2) with s2. simpl. rewrite Nat.add_0_r.
    by destruct (PyStr.rfind_from c s2 i).
  - rewrite append_cons. simpl. rewrite IH.
    replace (S i + String.length s1) with (i + S (String.length s1)) by lia.
    by destruct (PyStr.rfind_from c s2 _).
Qed.

Lemma endswith_inv (s suffix : string) :
  PyStr.endswith s suffix = true → ∃ base, s = base +:+ suffix.
Proof.
  unfold PyStr.endswith. intros [Hlen Heq]%andb_true_iff.
  apply Nat.leb_le in Hlen. apply String.eqb_eq in Heq.
  exists (String.substring 0 (String.length s - String.length suffix) s).
  pose proof (substring_split s (String.length s - String.length suffix)
                ltac:(lia)) as Hsplit.
  replace (String.length s - (String.length s - String.length suffix))
    with (String.length suffix) in Hsplit by lia.
  by rewrite Heq in Hsplit.
Qed.

(** A name with a non-empty base before ".pdf" has that base as stem and
    ".pdf", dot included, as suffix. *)
Lemma stem_suffix_pdf (d : nat) (base : string) :
  base ≠ "" →
  stem (mkPath d (base +:+ ".pdf")) = base
  ∧ suffix (mkPath d (base +:+ ".pdf")) = ".pdf".
Proof.
  intros Hbase.
  assert (0 < String.length base) as Hpos.
  { destruct base; [done | simpl; lia]. }
  unfold stem, suffix, PyStr.rfind. cbn [name].
  rewrite rfind_from_app.
  change (PyStr.rfind_from "." ".pdf" (0 + String.length base))
    with (Some (String.length base)).
  rewrite length_append. cbn [String.length].
  replace (0 <? String.length base)%nat with true
    by (symmetry; by apply Nat.ltb_lt).
  replace (String.length base <? String.length base + 4 - 1)%nat with true
    by (symmetry; apply Nat.ltb_lt; lia).
  cbn [andb]. rewrite substring_app_take, substring_app_drop.
  replace (String.length base + 4 - String.length base) with 4 by lia.
  done.
Qed.

(** ** More on the program *)

Section ProgramMore.

Context {page : Type} `{Fitz page}.

(** *** Directories and files *)

Lemma confined_bind {A B} D (m : M.t page A) (k : A → M.t page B) :
  confined D m → (∀ a, confined D (k a)) → confined D (M.bind m k).
Proof.
  intros Hm Hk w. unfold M.bind. specialize (Hm w).
  destruct (m w) as [[e|a] w1]; [done|].
  destruct Hm as [Hd1 Hf1]. destruct (Hk a w1) as [Hd2 Hf2].
  cbn [fst snd] in *. split; [congruence|].
  intros k0 v Hk0. destruct (Hf2 _ _ Hk0) as [?|?]; [by apply Hf1 | by right].
Qed.

Lemma confined_same {A} D (m : M.t page A) :
  (∀ w, tmp_dirs (m w).2 = tmp_dirs w ∧ files (m w).2 = files w) →
  confined D m.
Proof.
  intros Hm w. destruct (Hm w) as [Hd Hf]. split; [done|].
  intros k v. rewrite Hf. by left.
Qed.

Lemma confined_random_string D n : confined D (random_string (page := page) n).
Proof. by apply confined_same. Qed.

Lemma confined_insert D (location : Path) (data : FileData page) :
  dir location ∈ D →
  confined D (λ w, (inr tt, with_files (<[key location := data]>) w)).
Proof.
  intros Hin w. split; [done|]. cbn [fst snd files with_files].
  intros k v Hk. destruct (decide (key location = k)) as [<-|Hne].
  - by right.
  - left. by rewrite lookup_insert_ne in Hk.
Qed.

Lemma confined_transform D (path location : Path) :
  dir location ∈ D → confined D (transform path location).
Proof.
  intros Hin. unfold transform.
  apply confined_bind.
  { apply confined_same. intros w. unfold fitz_open.
    by destruct (files w !! key path) as [[]|]. }
  intros doc. apply confined_bind; [by apply confined_same|].
  intros doc1. apply confined_bind; [by apply confined_same|].
  intros pg. apply confined_bind.
  { apply confined_same. intros w. unfold actions.
    by destruct (actions_yaml w). }
  intros entries. apply confined_bind; [by apply confined_same|].
  intros pg1. unfold save.
  destruct (<[0%nat:=pg1]> doc1); [by apply confined_same|].
  by apply confined_insert.
Qed.

Lemma remove_fresh (d : nat) (ds : gset nat) :
  d ∉ ds → ({[d]} ∪ ds) ∖ {[d]} = ds.
Proof.
  intros Hd. apply set_eq. intros d'.
  rewrite elem_of_difference, elem_of_union, elem_of_singleton.
  split; [by intros [[->|?] ?]|]. intros ?. split; [by right | by intros ->].
Qed.

Lemma confined_TemporaryDirectory {A} D (body : nat → M.t page A) :
  (∀ d, confined ({[d]} ∪ D) (body d)) → confined D (TemporaryDirectory body).
Proof.
  intros Hbody w. unfold TemporaryDirectory, mkdtemp.
  set (d := fresh (tmp_dirs w)).
  destruct (Hbody d (with_tmp_dirs (λ ds, {[d]} ∪ ds) w)) as [Hd Hf].
  destruct (body d _) as [r w2]. cbn [fst snd] in *. split.
  - cbn [cleanup with_tmp_dirs tmp_dirs with_files]. rewrite Hd.
    cbn [with_tmp_dirs tmp_dirs]. apply remove_fresh, is_fresh.
  - intros k v Hk. cbn [cleanup with_tmp_dirs files with_files] in Hk.
    apply map_lookup_filter_Some in Hk as [Hk Hne].
    destruct (Hf _ _ Hk) as [?|Hin]; [by left|].
    apply elem_of_union in Hin as [Hin%elem_of_singleton|Hin]; [done|by right].
Qed.

Lemma confined_process_document {A} D path (body : Path → M.t page A) :
  (∀ location, confined ({[dir location]} ∪ D) (body location)) →
  confined D (process_document path body).
Proof.
  intros Hbody. apply confined_TemporaryDirectory. intros d.
  apply confined_bind; [apply confined_random_string|]. intros hash.
  apply confined_bind.
  - apply confined_transform. by apply elem_of_union_l, elem_of_singleton.
  - intros _. apply (Hbody (mkPath d _)).
Qed.

Lemma confined_send_document D chat path :
  confined D (send_document (page := page) chat path).
Proof.
  apply confined_same. intros w. unfold send_document.
  by destruct (files w !! key path).
Qed.

Lemma confined_ext {A} D (m m' : M.t page A) :
  (∀ w, m w = m' w) → confined D m' → confined D m.
Proof. intros Heq Hm w. rewrite Heq. apply Hm. Qed.

Lemma confined_download_document {A} D msg (body : Path → M.t page A) :
  (∀ doc fname, document msg = Some doc → file_name doc = Some fname →
                plain_name fname = true) →
  (∀ location, confined ({[dir location]} ∪ D) (body location)) →
  confined D (download_document msg body).
Proof.
  intros Hplain Hbody. unfold download_document.
  destruct (document msg) as [doc|] eqn:Hdoc; [|by apply confined_same].
  apply confined_bind.
  { apply confined_same. intros w. unfold get_file.
    by destruct (platform w !! file_id doc). }
  intros data. apply confined_TemporaryDirectory. intros d.
  destruct (file_name doc) as [fname|] eqn:Hname; [|by apply confined_same].
  assert (plain_name fname = true) as Hfname by (by apply (Hplain doc)).
  apply (confined_ext _ _
           (M.bind (download_to_drive data (mkPath d fname))
              (λ _, body (mkPath d fname)))).
  { intros w. unfold M.bind at 1, joinpath. by rewrite Hfname. }
  apply confined_bind.
  - apply confined_insert. by apply elem_of_union_l, elem_of_singleton.
  - intros _. apply (Hbody (mkPath d fname)).
Qed.

Lemma confined_handler update :
  plainly_named update → confined (page := page) ∅ (handler update).
Proof.
  intros Hplain. unfold handler.
  destruct (message update) as [msg|] eqn:Hmsg; [|by apply confined_same].
  apply confined_bind.
  { destruct (document msg) as [doc|]; [|by apply confined_same].
    destruct (file_name doc); by apply confined_same. }
  intros [|]; [by apply confined_same|].
  apply confined_download_document.
  { intros doc fname. by apply Hplain. }
  intros original. apply confined_process_document. intros copy.
  apply confined_send_document.
Qed.

(** *** Replies *)

Lemma replies_bind {A} chat (m : M.t page A) (k : A → M.t page unit) :
  quiet m → (∀ a, replies chat (k a)) → replies chat (M.bind m k).
Proof.
  intros Hm Hk w. unfold M.bind. specialize (Hm w).
  destruct (m w) as [[e|a] w1]; [done|]. cbn [snd] in Hm.
  specialize (Hk a w1). rewrite <- Hm. apply Hk.
Qed.

Lemma replies_TemporaryDirectory chat (body : nat → M.t page unit) :
  (∀ d, replies chat (body d)) → replies chat (TemporaryDirectory body).
Proof.
  intros Hbody w. unfold TemporaryDirectory, mkdtemp.
  set (d := fresh (tmp_dirs w)).
  specialize (Hbody d (with_tmp_dirs (λ ds, {[d]} ∪ ds) w)).
  by destruct (body d _) as [r w2].
Qed.

Lemma replies_send_document chat path :
  replies (page := page) chat (send_document chat path).
Proof.
  intros w. unfold send_document.
  destruct (files w !! key path) as [data|]; [|done].
  by exists (name path), data.
Qed.

Lemma quiet_transform path location :
  quiet (page := page) (transform path location).
Proof.
  intros w. unfold transform, M.bind, fitz_open.
  destruct (files w !! key path) as [[doc|]|]; [|done..].
  cbn [M.lift]. destruct (select [0%nat] doc) as [e|doc1]; [done|].
  destruct (getitem doc1 0) as [e|pg]; [done|].
  unfold actions. destruct (actions_yaml w) as [| |entries]; [done..|].
  unfold on_page. destruct (apply_entries entries pg) as [evs [e|pg1]]; [done|].
  cbn [fst snd]. unfold save. by destruct (<[0%nat:=pg1]> doc1).
Qed.

Lemma replies_process_document chat path :
  replies (page := page) chat
    (process_document path (λ copy, send_document chat copy)).
Proof.
  apply replies_TemporaryDirectory. intros d.
  apply replies_bind; [done|]. intros hash.
  apply replies_bind; [apply quiet_transform|]. intros _.
  apply replies_send_document.
Qed.

Lemma replies_download_document msg :
  replies (page := page) (chat_id msg)
    (download_document msg (λ original,
       process_document original (λ copy, send_document (chat_id msg) copy))).
Proof.
  unfold download_document. destruct (document msg) as [doc|]; [|done].
  apply replies_bind.
  { intros w. unfold get_file. by destruct (platform w !! file_id doc). }
  intros data. apply replies_TemporaryDirectory. intros d.
  destruct (file_name doc) as [fname|]; [|done].
  apply replies_bind.
  { intros w. unfold joinpath. by destruct (plain_name fname). }
  intros location. apply replies_bind; [done|]. intros _.
  apply replies_process_document.
Qed.

(** *** The handler, whatever the message *)

Lemma handler_nameless update msg doc (w : World page) :
  message update = Some msg → document msg = Some doc →
  file_name doc = None →
  handler update w = (inl (NoneTypeAttributeError "endswith"), w).
Proof.
  intros Hmsg Hdoc Hname. unfold handler. by rewrite Hmsg, Hdoc, Hname.
Qed.

(** A message with a document named "....pdf" is downloaded, processed
    and answered. *)
Lemma handler_proceeds update msg doc fname (w : World page) :
  message update = Some msg → document msg = Some doc →
  file_name doc = Some fname → PyStr.endswith fname ".pdf" = true →
  handler update w
  = download_document msg (λ original,
      process_document original (λ copy, send_document (chat_id msg) copy)) w.
Proof.
  intros Hmsg Hdoc Hname Hpdf. unfold handler. rewrite Hmsg. cbn zeta.
  rewrite Hdoc, Hname. unfold M.bind at 1, M.ret at 1. by rewrite Hpdf.
Qed.

Lemma handler_keeps_directories update (w : World page) :
  plainly_named update → tmp_dirs (handler update w).2 = tmp_dirs w.
Proof. intros Hplain. by apply confined_handler. Qed.

(** X11: however a message whose document has a plain name is
    handled, by a reply, by being ignored or by an exception at any point,
    the handler leaves the temporary directories as they were and no file
    that was not there before. *)
Theorem handler_leaves_nothing_behind update (w : World page) :
  plainly_named update →
  tmp_dirs (handler update w).2 = tmp_dirs w
  ∧ files (handler update w).2 ⊆ files w.
Proof.
  intros Hplain.
  destruct (confined_handler update Hplain w) as [Hdirs Hfiles].
  split; [done|]. apply map_subseteq_spec. intros k v Hk.
  destruct (Hfiles _ _ Hk) as [?|Hin]; [done|]. by apply elem_of_empty in Hin.
Qed.

(** X12: when the handler raises, no reply has been sent; when it returns,
    it has either left the world untouched or sent exactly one reply, to
    the chat the message came from. *)
Theorem handler_replies_at_most_once update (w : World page) :
  match (handler update w).1 with
  | inl _ => sent (handler update w).2 = sent w
  | inr _ =>
      (handler update w).2 = w
      ∨ ∃ msg fname data,
          message update = Some msg
          ∧ sent (handler update w).2 = sent w ++ [(chat_id msg, fname, data)]
  end.
Proof.
  destruct (message update) as [msg|] eqn:Hmsg; [|by unfold handler; rewrite Hmsg].
  destruct (document msg) as [doc|] eqn:Hdoc.
  2: { rewrite (handler_ignores_non_pdf _ msg); [by left|done|by left]. }
  destruct (file_name doc) as [fname|] eqn:Hname.
  2: { by rewrite (handler_nameless _ msg doc). }
  destruct (PyStr.endswith fname ".pdf") eqn:Hpdf.
  2: { rewrite (handler_ignores_non_pdf _ msg); [by left|done|].
       right. by exists doc, fname. }
  rewrite (handler_proceeds _ msg doc fname) by done.
  pose proof (replies_download_document msg w) as Hreply.
  destruct (download_document msg _ w) as [[e|[]] w']; [done|].
  destruct Hreply as (fname' & data & Hsent). right. by exists msg, fname', data.
Qed.

(** X13: the handler returns with the world untouched exactly when the
    message carries no document, or a named document whose name does not
    end in ".pdf". *)
Theorem handler_silent_iff update (w : World page) :
  handler update w = (inr tt, w)
  ↔ ∃ msg, message update = Some msg
           ∧ (document msg = None
              ∨ ∃ doc fname, document msg = Some doc
                             ∧ file_name doc = Some fname
                             ∧ PyStr.endswith fname ".pdf" = false).
Proof.
  split.
  - destruct (message update) as [msg|] eqn:Hmsg;
      [|by unfold handler; rewrite Hmsg].
    intros Hrun. exists msg. split; [done|].
    destruct (document msg) as [doc|] eqn:Hdoc; [|by left].
    destruct (file_name doc) as [fname|] eqn:Hname.
    2: { by rewrite (handler_nameless _ msg doc) in Hrun. }
    right. exists doc, fname. do 2 (split; [done|]).
    destruct (PyStr.endswith fname ".pdf") eqn:Hpdf; [|done].
    rewrite (handler_proceeds _ msg doc fname) in Hrun by done.
    pose proof (replies_download_document msg w) as Hreply.
    rewrite Hrun in Hreply. destruct Hreply as (fname' & data & Hsent).
    cbn [snd] in Hsent. apply (f_equal length) in Hsent.
    rewrite length_app in Hsent. simpl in Hsent. lia.
  - intros (msg & Hmsg & Hdoc). by apply (handler_ignores_non_pdf _ msg).
Qed.

(** *** The handler on a PDF *)

(** X14: the whole exchange.  For a message whose document has a plain
    name ending in ".pdf" and is held by the platform with at least one
    page, when the rules load and run, the handler returns after sending
    one reply to the chat of the message: the one-page document the rules
    made of page 0, under the name stem, dash, eight characters, dot,
    suffix, the eight characters being those the next eight draws of the
    generator pick from the alphabet.  The journal has grown by the events
    of the run and the temporary directories are as before. *)
Theorem handler_sends_processed_page update msg doc fname (w : World page)
    p0 rest entries evs pg' :
  message update = Some msg → document msg = Some doc →
  file_name doc = Some fname → plain_name fname = true →
  PyStr.endswith fname ".pdf" = true →
  platform w !! file_id doc = Some (Pdf (p0 :: rest)) →
  actions_yaml w = Holds entries →
  apply_entries entries p0 = (evs, inr pg') →
  ∃ hash w',
    let original := mkPath (fresh (tmp_dirs w)) fname in
    handler update w = (inr tt, w')
    ∧ String.length hash = 8
    ∧ (∀ j, j < 8 →
         String.get j hash
         = alphabet !! (generator w (drawn w + j) mod length alphabet))
    ∧ sent w'
      = sent w
        ++ [(chat_id msg,
             stem original +:+ "-" +:+ hash +:+ "." +:+ suffix original,
             Pdf [pg'])]
    ∧ journal w' = journal w ++ evs
    ∧ tmp_dirs w' = tmp_dirs w.
Proof.
  intros Hmsg Hdoc Hname Hplain Hpdf Hfile Hrules Hrun.
  set (d := fresh (tmp_dirs w)).
  set (w1 := with_files (<[key (mkPath d fname) := Pdf (p0 :: rest)]>)
               (with_tmp_dirs (λ ds, {[d]} ∪ ds) w)).
  destruct (process_document_saves (mkPath d fname) w1 p0 rest entries evs pg')
    as (hash & w2 & Hlen & _ & Hdraws & _ & Hfiles & _ & Hsent & Hjournal
        & Hbody);
    [apply lookup_insert_eq | done | done |].
  cbn zeta in Hfiles, Hbody.
  assert (handler update w
          = (inr tt,
             cleanup d
               (cleanup (fresh (tmp_dirs w1))
                  (with_sent
                     (λ l, l ++ [(chat_id msg,
                                  stem (mkPath d fname) +:+ "-" +:+ hash +:+ "."
                                  +:+ suffix (mkPath d fname),
                                  Pdf [pg'])]) w2)))) as Hhandler.
  { rewrite (handler_proceeds _ msg doc fname) by done.
    rewrite (download_document_plain _ doc fname (Pdf (p0 :: rest))) by done.
    cbn zeta. fold d. fold w1.
    rewrite Hbody. unfold send_document.
    by rewrite Hfiles, lookup_insert_eq. }
  exists hash. eexists. cbn zeta. split; [exact Hhandler|]. split; [done|].
  split; [exact Hdraws|].
  split; [by cbn; rewrite Hsent|]. split; [by cbn; rewrite Hjournal|].
  assert (plainly_named update) as Hnamed.
  { intros msg' doc' fname' Hmsg' Hdoc' Hname'.
    rewrite Hmsg in Hmsg'. injection Hmsg' as <-.
    rewrite Hdoc in Hdoc'. injection Hdoc' as <-.
    rewrite Hname in Hname'. by injection Hname' as <-. }
  pose proof (handler_keeps_directories update w Hnamed) as Hdirs.
  by rewrite Hhandler in Hdirs.
Qed.

(** *** [process_document] and its directory *)

(** X1: [random_string n] never raises; it returns [n] characters, each a
    lowercase letter or a digit, and only moves the generator on by [n]
    draws. *)
Theorem random_string_is_alphanumeric (n : nat) (w : World page) :
  ∃ s,
    random_string n w = (inr s, with_drawn (λ k, k + n) w)
    ∧ String.length s = n
    ∧ Forall (λ c, c ∈ alphabet) (list_ascii_of_string s).
Proof. apply random_string_spec. Qed.

(** X8: whatever the body of the caller's [with] block does and however
    it ends, by returning or by raising, the directory [process_document]
    made is gone when it exits, with every file in it. *)
Theorem output_directory_is_removed {A} path (body : Path → M.t page A)
    (w : World page) :
  let d := fresh (tmp_dirs w) in
  (d ∉ tmp_dirs (process_document path body w).2)
  ∧ ∀ fname, files (process_document path body w).2 !! (d, fname) = None.
Proof.
  cbn zeta. unfold process_document, TemporaryDirectory, mkdtemp.
  destruct (M.bind _ _ _) as [r w2]. cbn [snd]. split.
  - cbn. apply not_elem_of_difference. right. by apply elem_of_singleton.
  - intros fname. cbn. apply map_lookup_filter_None. right. intros v _ Hne.
    by apply Hne.
Qed.

(** X7: when a rule raises on page 0, [process_document] raises the same
    exception: the body of the caller's [with] block does not run,
    nothing is saved or sent, and what the rules did before the
    exception is in the journal. *)
Theorem engine_failure_saves_nothing path (w : World page) p0 rest entries
    evs e :
  files w !! key path = Some (Pdf (p0 :: rest)) →
  actions_yaml w = Holds entries →
  apply_entries entries p0 = (evs, inl e) →
  ∃ w',
    files w' ⊆ files w ∧ sent w' = sent w ∧ journal w' = journal w ++ evs
    ∧ ∀ A (body : Path → M.t page A),
        process_document path body w = (inl e, w').
Proof.
  intros Hfile Hrules Hrun.
  destruct (random_string_spec 8
              (with_tmp_dirs (λ ds, {[fresh (tmp_dirs w)]} ∪ ds) w))
    as (hash & Hrs & _).
  eexists (cleanup (fresh (tmp_dirs w))
             (with_journal (λ j, j ++ evs)
                (with_drawn (λ k, k + 8)
                   (with_tmp_dirs (λ ds, {[fresh (tmp_dirs w)]} ∪ ds) w)))).
  split; [apply map_filter_subseteq|]. do 2 (split; [done|]).
  intros A body.
  unfold process_document, TemporaryDirectory, mkdtemp.
  unfold M.bind at 1. rewrite Hrs. unfold M.bind at 1.
  unfold transform, M.bind, fitz_open, actions, on_page. cbn [files with_drawn
    with_tmp_dirs actions_yaml]. rewrite Hfile. cbn.
  by rewrite Hrules, Hrun.
Qed.

(** X9: for an input named base.pdf the suffix taken from the path
    already starts with a dot, so the output is saved as
    base-hash..pdf, with two dots. *)
Theorem pdf_output_has_two_dots path (w : World page) p0 rest entries evs pg' :
  PyStr.endswith (name path) ".pdf" = true → name path ≠ ".pdf" →
  files w !! key path = Some (Pdf (p0 :: rest)) →
  actions_yaml w = Holds entries →
  apply_entries entries p0 = (evs, inr pg') →
  ∃ base hash w1,
    let location :=
      mkPath (fresh (tmp_dirs w)) (base +:+ "-" +:+ hash +:+ "..pdf") in
    name path = base +:+ ".pdf"
    ∧ String.length hash = 8
    ∧ files w1 !! key location = Some (Pdf [pg'])
    ∧ ∀ A (body : Path → M.t page A),
        process_document path body w
        = (let '(r, w2) := body location w1 in
           (r, cleanup (fresh (tmp_dirs w)) w2)).
Proof.
  intros Hpdf Hname Hfile Hrules Hrun.
  destruct (endswith_inv _ _ Hpdf) as (base & Hbase).
  assert (base ≠ "") as Hne.
  { intros ->. by apply Hname. }
  destruct (stem_suffix_pdf (dir path) base Hne) as [Hstem Hsuffix].
  destruct (process_document_saves path w p0 rest entries evs pg' Hfile Hrules
              Hrun)
    as (hash & w1 & Hlen & _ & _ & _ & Hfiles & _ & _ & _ & Hbody).
  cbn zeta in Hfiles, Hbody.
  assert (path = mkPath (dir path) (base +:+ ".pdf")) as Hpath.
  { destruct path as [d nm]. cbn in *. by rewrite Hbase. }
  rewrite Hpath in Hfiles, Hbody. rewrite Hstem, Hsuffix in Hfiles, Hbody.
  exists base, hash, w1. cbn zeta. split; [done|]. split; [done|].
  split; [by rewrite Hfiles, lookup_insert_eq|].
  intros A body. rewrite Hpath at 1. apply Hbody.
Qed.

(** *** [download_document] *)

(** X10: for a document with a plain name, the file is requested before
    any directory is made.  If the platform does not deliver it,
    [download_document] raises and the world is untouched; if it does, the
    body of the caller's [with] block runs with the file, under its own
    name, in a directory that did not exist before, and the directory is
    removed when the body has ended. *)
Theorem download_document_outcomes {A} msg doc fname
    (body : Path → M.t page A) (w : World page) :
  document msg = Some doc → file_name doc = Some fname →
  plain_name fname = true →
  match platform w !! file_id doc with
  | None => download_document msg body w = (inl TelegramError, w)
  | Some data =>
      let d := fresh (tmp_dirs w) in
      let w1 := with_files (<[key (mkPath d fname) := data]>)
                  (with_tmp_dirs (λ ds, {[d]} ∪ ds) w) in
      (d ∉ tmp_dirs w)
      ∧ files w1 !! key (mkPath d fname) = Some data
      ∧ download_document msg body w
        = (let '(r, w2) := body (mkPath d fname) w1 in (r, cleanup d w2))
  end.
Proof.
  intros Hdoc Hname Hplain.
  destruct (platform w !! file_id doc) as [data|] eqn:Hfile.
  - cbn zeta. split; [apply is_fresh|]. split; [apply lookup_insert_eq|].
    by rewrite (download_document_plain _ doc fname data).
  - unfold download_document. rewrite Hdoc. unfold M.bind at 1, get_file.
    by rewrite Hfile.
Qed.

(** *** Start-up *)

(** X15: the application is built exactly when the token file exists
    and is not empty and the user-id file holds an integer, with that
    token and that user as its filter; otherwise the constructor raises a
    configuration error: the missing token file first, then the empty
    token, then the user id.  Nothing is changed either way, and the rules
    file plays no part. *)
Theorem startup_needs_token_and_user (w : World page) :
  (∀ app w', App_init w = (inr app, w')
             ↔ token_txt w = Some (bot_token app) ∧ bot_token app ≠ ""
               ∧ user_id_txt w = Holds (filter_user app) ∧ w' = w)
  ∧ (∀ e w', App_init w = (inl e, w') →
       condition e = Some ConfigurationUnavailable ∧ w' = w
       ∧ (token_txt w = None → e = FileNotFoundError ".token.txt")
       ∧ (token_txt w = Some "" → e = InvalidToken))
  ∧ (∀ rules, (App_init (with_actions_yaml rules w)).1 = (App_init w).1).
Proof.
  unfold App_init, M.bind, _token, _user_id, M.ret, M.raise.
  cbn [with_actions_yaml token_txt user_id_txt].
  split; [|split].
  - intros [token user] w'. cbn [bot_token filter_user].
    destruct (token_txt w) as [t|]; [|by split; [|intros (? & _)]].
    destruct (String.eqb t "") eqn:Hempty.
    { apply String.eqb_eq in Hempty as ->.
      split; [done|]. by intros ([= <-] & ? & _). }
    apply String.eqb_neq in Hempty.
    destruct (user_id_txt w) as [| |u];
      [by split; [|intros (_ & _ & ? & _)]..|].
    split; [by intros [= -> -> ->]|]. by intros ([= ->] & _ & [= ->] & ->).
  - intros e w'. destruct (token_txt w) as [t|]; [|by intros [= <- <-]].
    destruct (String.eqb t "") eqn:Hempty.
    { by intros [= <- <-]. }
    apply String.eqb_neq in Hempty.
    destruct (user_id_txt w) as [| |u]; [| |done];
      intros [= <- <-]; (do 3 (split; [done|])); by intros [= ->].
  - intros rules. destruct (token_txt w) as [t|]; [|done].
    destruct (String.eqb t ""); [done|]. cbn.
    by destruct (user_id_txt w).
Qed.

End ProgramMore.

(** ** The further results on concrete inputs *)

Lemma inert_rules_do_nothing_witness :
  apply_entries [Sheet.rule "Invoice" ""; ∅] Sheet.invoice_page
  = ([], inr Sheet.invoice_page).
Proof.
  apply (inert_rules_do_nothing [Sheet.rule "Invoice" ""; ∅] Sheet.invoice_page).
  constructor; [|constructor; [|constructor]].
  - right; right; right. reflexivity.
  - left. reflexivity.
Defined.

Lemma failure_aborts_remaining_rules_witness :
  @apply_entries _ Sheet.broken
    ([Sheet.invoice_rule] ++ [Sheet.rule "#42" "#43"]) Sheet.invoice_page
  = ([Lib (SearchFor Sheet.invoice_page "Invoice")], inl (FitzError 1)).
Proof.
  apply (@failure_aborts_remaining_rules _ Sheet.broken [Sheet.invoice_rule]
           [Sheet.rule "#42" "#43"] Sheet.invoice_page).
  reflexivity.
Defined.

Lemma no_occurrence_no_change_witness :
  apply_entry (Sheet.rule "Total" "Sum") Sheet.invoice_page
  = ([Lib (SearchFor Sheet.invoice_page "Total");
      Info ("Found 0 occurrences of " +:+ "Total")],
     inr Sheet.invoice_page).
Proof.
  apply (no_occurrence_no_change (Sheet.rule "Total" "Sum") "Total" "Sum"
           Sheet.invoice_page);
    [reflexivity | reflexivity | discriminate | discriminate | reflexivity].
Defined.

Lemma log_names_the_replacement_witness :
  log_lines Sheet.invoice_events
  = ("Found " +:+ pretty (length [mkRect 10 20 66 30]) +:+ " occurrences of "
     +:+ "Invoice")
    :: map (λ j, "Replaced instance " +:+ pretty (j + 1)%nat +:+ " of "
                 +:+ "Invoice" +:+ " with " +:+ "Receipt" +:+ ".")
         (seq 0 (length [mkRect 10 20 66 30])).
Proof.
  apply (log_names_the_replacement Sheet.invoice_rule "Invoice" "Receipt"
           Sheet.invoice_page Sheet.invoice_done Sheet.invoice_events
           [mkRect 10 20 66 30]);
    [reflexivity | reflexivity | discriminate | discriminate | reflexivity
    | reflexivity].
Defined.

Lemma written_texts_are_find_texts_witness :
  ∃ entry, entry ∈ [Sheet.invoice_rule; Sheet.rule "#42" "#43"]
           ∧ entry !! "replace" = Some "#42" ∧ "#42" ≠ ""
           ∧ PyStr.truthy (entry !! "with") = true.
Proof.
  apply (written_texts_are_find_texts
           [Sheet.invoice_rule; Sheet.rule "#42" "#43"] Sheet.invoice_page "#42").
  vm_compute. apply list_elem_of_In. simpl. right. left. reflexivity.
Defined.

Lemma engine_failure_saves_nothing_witness :
  ∃ w',
    files w' ⊆ files Sheet.two_pages ∧ sent w' = sent Sheet.two_pages
    ∧ journal w'
      = journal Sheet.two_pages ++ [Lib (SearchFor Sheet.invoice_page "Invoice")]
    ∧ ∀ A (body : Path → M.t Sheet.t A),
        @process_document _ Sheet.broken A Sheet.original body Sheet.two_pages
        = (inl (FitzError 1), w').
Proof.
  apply (@engine_failure_saves_nothing _ Sheet.broken Sheet.original
           Sheet.two_pages Sheet.invoice_page [Sheet.cover_page]
           [Sheet.invoice_rule]);
    reflexivity.
Defined.

Lemma pdf_output_has_two_dots_witness :
  ∃ base hash w1,
    let location :=
      mkPath (fresh (tmp_dirs Sheet.two_pages))
        (base +:+ "-" +:+ hash +:+ "..pdf") in
    name Sheet.original = base +:+ ".pdf"
    ∧ String.length hash = 8
    ∧ files w1 !! key location = Some (Pdf [Sheet.invoice_done])
    ∧ ∀ A (body : Path → M.t Sheet.t A),
        process_document Sheet.original body Sheet.two_pages
        = (let '(r, w2) := body location w1 in
           (r, cleanup (fresh (tmp_dirs Sheet.two_pages)) w2)).
Proof.
  apply (pdf_output_has_two_dots Sheet.original Sheet.two_pages
           Sheet.invoice_page [Sheet.cover_page] [Sheet.invoice_rule]
           Sheet.invoice_events Sheet.invoice_done);
    [reflexivity | discriminate | reflexivity | reflexivity | reflexivity].
Defined.

Lemma download_document_outcomes_witness :
  let msg := mkMessage 5 (Some (mkDocument "file-1" (Some "invoice.pdf"))) in
  let d := fresh (tmp_dirs Sheet.two_pages) in
  let w1 := with_files
              (<[key (mkPath d "invoice.pdf")
                 := Pdf [Sheet.invoice_page; Sheet.cover_page]]>)
              (with_tmp_dirs (λ ds, {[d]} ∪ ds) Sheet.two_pages) in
  (d ∉ tmp_dirs Sheet.two_pages)
  ∧ files w1 !! key (mkPath d "invoice.pdf")
    = Some (Pdf [Sheet.invoice_page; Sheet.cover_page])
  ∧ download_document msg (λ location, M.ret (name location)) Sheet.two_pages
    = (let '(r, w2) := M.ret (name (mkPath d "invoice.pdf")) w1 in
       (r, cleanup d w2)).
Proof.
  apply (download_document_outcomes
           (mkMessage 5 (Some (mkDocument "file-1" (Some "invoice.pdf"))))
           (mkDocument "file-1" (Some "invoice.pdf")) "invoice.pdf"
           (λ location, M.ret (name location)) Sheet.two_pages);
    reflexivity.
Defined.

Lemma handler_sends_processed_page_witness :
  ∃ hash w',
    let original := mkPath (fresh (tmp_dirs Sheet.two_pages)) "invoice.pdf" in
    handler (Sheet.inbound (Some "invoice.pdf")) Sheet.two_pages = (inr tt, w')
    ∧ String.length hash = 8
    ∧ (∀ j, j < 8 →
         String.get j hash
         = alphabet !! (generator Sheet.two_pages (drawn Sheet.two_pages + j)
                        mod length alphabet))
    ∧ sent w'
      = sent Sheet.two_pages
        ++ [(5%Z,
             stem original +:+ "-" +:+ hash +:+ "." +:+ suffix original,
             Pdf [Sheet.invoice_done])]
    ∧ journal w' = journal Sheet.two_pages ++ Sheet.invoice_events
    ∧ tmp_dirs w' = tmp_dirs Sheet.two_pages.
Proof.
  apply (handler_sends_processed_page (Sheet.inbound (Some "invoice.pdf"))
           (mkMessage 5 (Some (mkDocument "file-1" (Some "invoice.pdf"))))
           (mkDocument "file-1" (Some "invoice.pdf")) "invoice.pdf"
           Sheet.two_pages Sheet.invoice_page [Sheet.cover_page]
           [Sheet.invoice_rule] Sheet.invoice_events Sheet.invoice_done);
    reflexivity.
Defined.

Lemma handler_leaves_nothing_behind_witness :
  tmp_dirs (handler (Sheet.inbound (Some "invoice.pdf")) Sheet.two_pages).2
  = tmp_dirs Sheet.two_pages
  ∧ files (handler (Sheet.inbound (Some "invoice.pdf")) Sheet.two_pages).2
    ⊆ files Sheet.two_pages.
Proof.
  apply (handler_leaves_nothing_behind (Sheet.inbound (Some "invoice.pdf"))
           Sheet.two_pages).
  intros msg doc fname [= <-] [= <-] [= <-]. reflexivity.
Defined.
